(** * One-dimensional root finding: a shallow embedding of [mpmath/optimization.py]

    The module offers nine iterative solvers behind one generator protocol
    (each yields pairs of an approximation and an error estimate), the driver
    [findroot], the helper [multiplicity] and the transform [steffensen].

    Conventions of the embedding.
    - Python values of the numeric tower (plain numbers and the library's
      arbitrary-precision numbers) form one type [num]; the arithmetic of the
      library is a record [Arith num] of operations, so that every statement
      holds for whatever arithmetic the library provides.
    - Exceptions are values: a computation that may raise returns [res A].
    - A generator is a frame (its local variables) together with a function
      that resumes the frame up to the next [yield].
    - Diagnostic printing ([verbose]) writes to the terminal only and is not
      part of the embedding; the [verbose] entry of the keyword dictionary is
      kept because constructors read it. *)

From Stdlib Require Import ZArith QArith Qabs List Ascii String Bool Lia.
From Stdlib Require Import DecimalZ DecimalString.
From stdpp Require Import base option gmap strings.
Import ListNotations.

Local Open Scope Z_scope.
Local Open Scope string_scope.

(** ** Exceptions and results *)

Inductive fmtarg (num : Type) : Type :=
| ArgInt (n : Z)
| ArgNum (x : num)
| ArgStr (s : string).
Arguments ArgInt {num} n.
Arguments ArgNum {num} x.
Arguments ArgStr {num} s.

(** The argument of an exception: a literal text, or [fmt % args] with the
    arguments kept unformatted. *)
Inductive message (num : Type) : Type :=
| Text (s : string)
| Format (fmt : string) (args : list (fmtarg num)).
Arguments Text {num} s.
Arguments Format {num} fmt args.

Inductive exn (num : Type) : Type :=
| ZeroDivisionError
| ValueError (msg : message num)
| KeyError (key : string)
| UnboundLocalError (var : string)
| OtherError (name : string).
Arguments ZeroDivisionError {num}.
Arguments ValueError {num} msg.
Arguments KeyError {num} key.
Arguments UnboundLocalError {num} var.
Arguments OtherError {num} name.

Inductive res (num A : Type) : Type :=
| Ok (a : A)
| Raise (e : exn num).
Arguments Ok {num A} a.
Arguments Raise {num A} e.

Definition bind {num A B : Type} (m : res num A) (k : A -> res num B) : res num B :=
  match m with
  | Ok a => k a
  | Raise e => Raise e
  end.

Notation "x <- m ;; k" := (bind m (fun x => k))
  (at level 100, m at next level, right associativity).

Fixpoint mapM {num A B : Type} (g : A -> res num B) (l : list A) : res num (list B) :=
  match l with
  | [] => Ok []
  | a :: l' => b <- g a ;; bs <- mapM g l' ;; Ok (b :: bs)
  end.

(** [s * n] on a Python string. *)
Fixpoint str_repeat (s : string) (n : nat) : string :=
  match n with
  | O => ""
  | S n' => s ++ str_repeat s n'
  end.

(** [str(i)] on a Python integer. *)
Definition str_of_int (i : Z) : string := NilZero.string_of_int (Z.to_int i).

(** ** The numeric collaborators

    Everything imported from the rest of the library: the arithmetic on
    values, [sqrt] and [sign] (module [functions]), [diff] (module
    [calculus]), [convert_lossless] and [eps] (module [mptypes]) and the
    builtin constructors [float] and [complex]. *)

Definition callable (num : Type) : Type := num -> res num num.

Record Arith (num : Type) : Type := {
  (** the value of a numeric literal of the program text *)
  lit : Q -> num;
  add : num -> num -> num;
  sub : num -> num -> num;
  mul : num -> num -> num;
  (** the quotient by a divisor that is not zero *)
  quot : num -> num -> num;
  neg : num -> num;
  pow : num -> Z -> num;
  absv : num -> num;
  sqrt : num -> num;
  sign : num -> num;
  (** [a < b] *)
  ltb : num -> num -> bool;
  (** [not a], which for a number is [a == 0] *)
  is_zero : num -> bool;
  (** [diff(f, x)] when the order is [None], [diff(f, x, n)] otherwise *)
  diff : callable num -> num -> option Z -> res num num;
  convert_lossless : callable num;
  py_float : callable num;
  py_complex : callable num;
  eps : num
}.
Arguments lit {num} _ _.
Arguments add {num} _ _ _.
Arguments sub {num} _ _ _.
Arguments mul {num} _ _ _.
Arguments quot {num} _ _ _.
Arguments neg {num} _ _.
Arguments pow {num} _ _ _.
Arguments absv {num} _ _.
Arguments sqrt {num} _ _.
Arguments sign {num} _ _.
Arguments ltb {num} _ _ _.
Arguments is_zero {num} _ _.
Arguments diff {num} _ _ _ _.
Arguments convert_lossless {num} _ _.
Arguments py_float {num} _ _.
Arguments py_complex {num} _ _.
Arguments eps {num} _.

(** ** The generator protocol *)

(** What resuming a generator frame gives: the next pair and the suspended
    frame, the end of the sequence, or an exception that leaves the frame. *)
Inductive step (num S : Type) : Type :=
| Yield (x error : num) (s : S)
| Stop
| Throw (e : exn num).
Arguments Yield {num S} x error s.
Arguments Stop {num S}.
Arguments Throw {num S} e.

Definition bindS {num A S : Type} (m : res num A) (k : A -> step num S) : step num S :=
  match m with
  | Ok a => k a
  | Raise e => Throw e
  end.

Notation "x <~ m ;; k" := (bindS m (fun x => k))
  (at level 100, m at next level, right associativity).

(** A solver instance as the driver sees it: iterable, with a [maxsteps]
    attribute. *)
Record iterations (num : Type) : Type := {
  it_frame : Type;
  it_start : it_frame;
  it_next : it_frame -> step num it_frame;
  it_maxsteps : Z
}.
Arguments it_frame {num} _.
Arguments it_start {num} _.
Arguments it_next {num} _ _.
Arguments it_maxsteps {num} _.

(** The first [n] pairs of a generator, with the frame reached, when it
    yields that many. *)
Fixpoint pull {num S : Type} (next : S -> step num S) (n : nat) (s : S)
  : option (list (num * num) * S) :=
  match n with
  | O => Some ([], s)
  | S n' =>
      match next s with
      | Yield x e s' =>
          match pull next n' s' with
          | Some (ps, s'') => Some ((x, e) :: ps, s'')
          | None => None
          end
      | _ => None
      end
  end.

(** ** Keyword arguments *)

Record kwargs (num : Type) : Type := {
  kw_tol : option num;
  kw_verbose : option bool;
  kw_maxsteps : option Z;
  kw_df : option (callable num);
  kw_d1f : option (callable num);
  kw_d2f : option (callable num);
  kw_method : option string
}.
Arguments kw_tol {num} _.
Arguments kw_verbose {num} _.
Arguments kw_maxsteps {num} _.
Arguments kw_df {num} _.
Arguments kw_d1f {num} _.
Arguments kw_d2f {num} _.
Arguments kw_method {num} _.

Definition no_kwargs {num : Type} : kwargs num :=
  {| kw_tol := None; kw_verbose := None; kw_maxsteps := None; kw_df := None;
     kw_d1f := None; kw_d2f := None; kw_method := None |}.

(** [kwargs[key]] *)
Definition getitem {num A : Type} (key : string) (o : option A) : res num A :=
  match o with
  | Some a => Ok a
  | None => Raise (KeyError key)
  end.

Section Solvers.

Context {num : Type} (A : Arith num).

Local Abbreviation R := (res num).
Local Abbreviation c0 := (lit A 0%Q).
Local Abbreviation c1 := (lit A 1%Q).
Local Abbreviation c2 := (lit A 2%Q).
Local Abbreviation c4 := (lit A 4%Q).
Local Abbreviation c0_25 := (lit A (1 # 4)%Q).
Local Abbreviation c0_5 := (lit A (1 # 2)%Q).
Declare Scope num_scope.
Delimit Scope num_scope with num.
Local Notation "a + b" := (add A a b) : num_scope.
Local Notation "a - b" := (sub A a b) : num_scope.
Local Notation "a * b" := (mul A a b) : num_scope.
Local Notation "a < b" := (ltb A a b) : num_scope.
Local Open Scope num_scope.

(** [a / b] *)
Definition div (a b : num) : R num :=
  if is_zero A b then Raise ZeroDivisionError else Ok (quot A a b).

(** *** Secant *)

Record Secant : Type := {
  Secant_f : callable num;
  Secant_x0 : num;
  Secant_x1 : num
}.

Definition Secant_maxsteps : Z := 30.

Definition Secant_init (f : callable num) (x0 : list num) (kw : kwargs num) : R Secant :=
  match x0 with
  | [a] => Ok {| Secant_f := f; Secant_x0 := a; Secant_x1 := a + c0_25 |}
  | [a; b] => Ok {| Secant_f := f; Secant_x0 := a; Secant_x1 := b |}
  | _ => Raise (ValueError
           (Text (str_repeat "expected 1 or 2 starting points, got %i" (length x0))))
  end.

Inductive Secant_frame : Type :=
| Secant_entry
| Secant_loop (x0 x1 f0 : num).

Definition Secant_body (f : callable num) (x0 x1 f0 : num) : step num Secant_frame :=
  f1 <~ f x1 ;;
  let l := x1 - x0 in
  if is_zero A l then Stop else
  s <~ div (f1 - f0) l ;;
  if is_zero A s then Stop else
  q <~ div f1 s ;;
  Yield (x1 - q) (absv A l) (Secant_loop x1 (x1 - q) f1).

Definition Secant_next (self : Secant) (fr : Secant_frame) : step num Secant_frame :=
  match fr with
  | Secant_entry =>
      f0 <~ Secant_f self (Secant_x0 self) ;;
      Secant_body (Secant_f self) (Secant_x0 self) (Secant_x1 self) f0
  | Secant_loop x0 x1 f0 => Secant_body (Secant_f self) x0 x1 f0
  end.

Definition Secant_iter (self : Secant) : iterations num :=
  {| it_frame := Secant_frame; it_start := Secant_entry;
     it_next := Secant_next self; it_maxsteps := Secant_maxsteps |}.

(** *** Modified Newton *)

Record MNewton : Type := {
  MNewton_x0 : num;
  MNewton_f : callable num;
  MNewton_df : callable num;
  MNewton_d2f : callable num
}.

Definition MNewton_maxsteps : Z := 20.

Definition MNewton_init (f : callable num) (x0 : list num) (kw : kwargs num) : R MNewton :=
  match x0 with
  | [a] =>
      let df := match kw_df kw with
                | None => fun x => diff A f x None
                | Some g => g
                end in
      d2f <- match kw_d2f kw with
             | None => Ok (fun x => diff A df x None)
             | Some _ => getitem "df" (kw_df kw)
             end ;;
      Ok {| MNewton_x0 := a; MNewton_f := f; MNewton_df := df; MNewton_d2f := d2f |}
  | _ => Raise (ValueError
           (Text (str_repeat "expected 1 starting point, got %i" (length x0))))
  end.

(** The frame holds the local [x]. *)
Definition MNewton_next (self : MNewton) (x : num) : step num num :=
  let prevx := x in
  fx <~ MNewton_f self x ;;
  if is_zero A fx then Stop else
  dfx <~ MNewton_df self x ;;
  d2fx <~ MNewton_d2f self x ;;
  t <~ div (fx * d2fx) dfx ;;
  q <~ div fx (dfx - t) ;;
  let x := x - q in
  Yield x (absv A (x - prevx)) x.

Definition MNewton_iter (self : MNewton) : iterations num :=
  {| it_frame := num; it_start := MNewton_x0 self;
     it_next := MNewton_next self; it_maxsteps := MNewton_maxsteps |}.

(** *** Halley *)

Record Halley : Type := {
  Halley_x0 : num;
  Halley_f : callable num;
  Halley_df : callable num;
  Halley_d2f : callable num
}.

Definition Halley_maxsteps : Z := 20.

Definition Halley_init (f : callable num) (x0 : list num) (kw : kwargs num) : R Halley :=
  match x0 with
  | [a] =>
      let df := match kw_df kw with
                | None => fun x => diff A f x None
                | Some g => g
                end in
      d2f <- match kw_d2f kw with
             | None => Ok (fun x => diff A df x None)
             | Some _ => getitem "df" (kw_df kw)
             end ;;
      Ok {| Halley_x0 := a; Halley_f := f; Halley_df := df; Halley_d2f := d2f |}
  | _ => Raise (ValueError
           (Format "expected 1 starting point, got %i" [ArgInt (Z.of_nat (length x0))]))
  end.

Definition Halley_next (self : Halley) (x : num) : step num num :=
  let prevx := x in
  fx <~ Halley_f self x ;;
  dfx <~ Halley_df self x ;;
  d2fx <~ Halley_d2f self x ;;
  q <~ div ((c2 * fx) * dfx) (c2 * pow A dfx 2 - fx * d2fx) ;;
  let x := x - q in
  Yield x (absv A (x - prevx)) x.

Definition Halley_iter (self : Halley) : iterations num :=
  {| it_frame := num; it_start := Halley_x0 self;
     it_next := Halley_next self; it_maxsteps := Halley_maxsteps |}.

(** *** Muller *)

Record Muller : Type := {
  Muller_x0 : num;
  Muller_x1 : num;
  Muller_x2 : num;
  Muller_f : callable num;
  Muller_verbose : bool
}.

Definition Muller_maxsteps : Z := 30.

Definition Muller_points (x0 : list num) : R (num * num * num) :=
  match x0 with
  | [a] => Ok (a, a + c0_25, (a + c0_25) + c0_25)
  | [a; b] => Ok (a, b, b + c0_25)
  | [a; b; c] => Ok (a, b, c)
  | _ => Raise (ValueError
           (Format "expected 1, 2 or 3 starting points, got %i"
                   [ArgInt (Z.of_nat (length x0))]))
  end.

Definition Muller_init (f : callable num) (x0 : list num) (kw : kwargs num) : R Muller :=
  p <- Muller_points x0 ;;
  let '(a, b, c) := p in
  verbose <- getitem "verbose" (kw_verbose kw) ;;
  Ok {| Muller_x0 := a; Muller_x1 := b; Muller_x2 := c; Muller_f := f;
        Muller_verbose := verbose |}.

Inductive Muller_frame : Type :=
| Muller_entry
| Muller_loop (x0 x1 x2 fx0 fx1 fx2 : num).

Definition Muller_body (f : callable num) (x0 x1 x2 fx0 fx1 fx2 : num)
  : step num Muller_frame :=
  fx2x1 <~ div (fx1 - fx2) (x1 - x2) ;;
  fx2x0 <~ div (fx0 - fx2) (x0 - x2) ;;
  fx1x0 <~ div (fx0 - fx1) (x0 - x1) ;;
  let w := (fx2x1 + fx2x0) - fx1x0 in
  fx2x1x0 <~ div (fx1x0 - fx2x1) (x0 - x2) ;;
  if is_zero A w && is_zero A fx2x1x0 then Stop else
  let x0 := x1 in
  let fx0 := fx1 in
  let x1 := x2 in
  let fx1 := fx2 in
  let r := sqrt A (pow A w 2 - (c4 * fx2) * fx2x1x0) in
  let r := if absv A (w + r) < absv A (w - r) then neg A r else r in
  q <~ div (c2 * fx2) (w + r) ;;
  let x2 := x2 - q in
  fx2 <~ f x2 ;;
  Yield x2 (absv A (x2 - x1)) (Muller_loop x0 x1 x2 fx0 fx1 fx2).

Definition Muller_next (self : Muller) (fr : Muller_frame) : step num Muller_frame :=
  match fr with
  | Muller_entry =>
      let f := Muller_f self in
      fx0 <~ f (Muller_x0 self) ;;
      fx1 <~ f (Muller_x1 self) ;;
      fx2 <~ f (Muller_x2 self) ;;
      Muller_body f (Muller_x0 self) (Muller_x1 self) (Muller_x2 self) fx0 fx1 fx2
  | Muller_loop x0 x1 x2 fx0 fx1 fx2 => Muller_body (Muller_f self) x0 x1 x2 fx0 fx1 fx2
  end.

Definition Muller_iter (self : Muller) : iterations num :=
  {| it_frame := Muller_frame; it_start := Muller_entry;
     it_next := Muller_next self; it_maxsteps := Muller_maxsteps |}.

(** *** Bisection *)

Record Bisection : Type := {
  Bisection_f : callable num;
  Bisection_a : num;
  Bisection_b : num
}.

Definition Bisection_maxsteps : Z := 100.

Definition Bisection_init (f : callable num) (x0 : list num) (kw : kwargs num)
  : R Bisection :=
  match x0 with
  | [a; b] => Ok {| Bisection_f := f; Bisection_a := a; Bisection_b := b |}
  | _ => Raise (ValueError
           (Text (str_repeat "expected interval of 2 points, got %i" (length x0))))
  end.

(** The frame holds the locals [a], [b] and [l]. *)
Definition Bisection_next (self : Bisection) (fr : num * num * num)
  : step num (num * num * num) :=
  let '(a, b, l) := fr in
  let m := c0_5 * (a + b) in
  fm <~ Bisection_f self m ;;
  fb <~ Bisection_f self b ;;
  let '(a, b) := if (fm * fb) < c0 then (m, b) else (a, m) in
  l <~ div l c2 ;;
  mid <~ div (a + b) c2 ;;
  Yield mid (absv A l) (a, b, l).

Definition Bisection_iter (self : Bisection) : iterations num :=
  {| it_frame := num * num * num;
     it_start := (Bisection_a self, Bisection_b self, Bisection_b self - Bisection_a self);
     it_next := Bisection_next self; it_maxsteps := Bisection_maxsteps |}.

(** *** The Illinois family *)

Definition _getm (method : string) : R (num -> num -> R num) :=
  if String.eqb method "illinois" then
    Ok (fun fz fb => Ok c0_5)
  else if String.eqb method "pegasus" then
    Ok (fun fz fb => div fb (fb + fz))
  else if String.eqb method "anderson" then
    Ok (fun fz fb =>
          t <- div fz fb ;;
          let m := c1 - t in
          if c0 < m then Ok m else Ok c0_5)
  else Raise (ValueError (Format "method '%s' not recognized" [ArgStr method])).

Record Illinois : Type := {
  Illinois_a : num;
  Illinois_b : num;
  Illinois_f : callable num;
  Illinois_tol : num;
  Illinois_verbose : bool;
  Illinois_method : string;
  Illinois_getm : num -> num -> R num
}.

Definition Illinois_maxsteps : Z := 30.

Definition Illinois_init (f : callable num) (x0 : list num) (kw : kwargs num)
  : R Illinois :=
  match x0 with
  | [a; b] =>
      tol <- getitem "tol" (kw_tol kw) ;;
      verbose <- getitem "verbose" (kw_verbose kw) ;;
      let method := match kw_method kw with
                    | Some m => m
                    | None => "illinois"
                    end in
      getm <- _getm method ;;
      Ok {| Illinois_a := a; Illinois_b := b; Illinois_f := f; Illinois_tol := tol;
            Illinois_verbose := verbose; Illinois_method := method;
            Illinois_getm := getm |}
  | _ => Raise (ValueError
           (Text (str_repeat "expected interval of 2 points, got %i" (length x0))))
  end.

Inductive Illinois_frame : Type :=
| Illinois_entry
| Illinois_loop (a b fa fb : num)
| Illinois_done.

Definition Illinois_body (self : Illinois) (a b fa fb : num) : step num Illinois_frame :=
  let l := b - a in
  if is_zero A l then Stop else
  s <~ div (fb - fa) l ;;
  q <~ div fa s ;;
  let z := a - q in
  fz <~ Illinois_f self z ;;
  if absv A fz < Illinois_tol self then Yield z l Illinois_done else
  if (fz * fb) < c0 then
    mid <~ div (b + z) c2 ;;
    Yield mid (absv A l) (Illinois_loop b z fb fz)
  else
    m <~ Illinois_getm self fz fb ;;
    mid <~ div (a + z) c2 ;;
    Yield mid (absv A l) (Illinois_loop a z (m * fa) fz).

Definition Illinois_next (self : Illinois) (fr : Illinois_frame) : step num Illinois_frame :=
  match fr with
  | Illinois_entry =>
      fa <~ Illinois_f self (Illinois_a self) ;;
      fb <~ Illinois_f self (Illinois_b self) ;;
      Illinois_body self (Illinois_a self) (Illinois_b self) fa fb
  | Illinois_loop a b fa fb => Illinois_body self a b fa fb
  | Illinois_done => Stop
  end.

Definition Illinois_iter (self : Illinois) : iterations num :=
  {| it_frame := Illinois_frame; it_start := Illinois_entry;
     it_next := Illinois_next self; it_maxsteps := Illinois_maxsteps |}.

Definition set_method (m : string) (kw : kwargs num) : kwargs num :=
  {| kw_tol := kw_tol kw; kw_verbose := kw_verbose kw; kw_maxsteps := kw_maxsteps kw;
     kw_df := kw_df kw; kw_d1f := kw_d1f kw; kw_d2f := kw_d2f kw;
     kw_method := Some m |}.

Definition Pegasus (f : callable num) (x0 : list num) (kw : kwargs num) : R Illinois :=
  Illinois_init f x0 (set_method "pegasus" kw).

Definition Anderson (f : callable num) (x0 : list num) (kw : kwargs num) : R Illinois :=
  Illinois_init f x0 (set_method "anderson" kw).

(** *** Ridder *)

Record Ridder : Type := {
  Ridder_f : callable num;
  Ridder_x1 : num;
  Ridder_x2 : num;
  Ridder_verbose : bool;
  Ridder_tol : num
}.

Definition Ridder_maxsteps : Z := 30.

Definition Ridder_init (f : callable num) (x0 : list num) (kw : kwargs num) : R Ridder :=
  match x0 with
  | [a; b] =>
      verbose <- getitem "verbose" (kw_verbose kw) ;;
      tol <- getitem "tol" (kw_tol kw) ;;
      Ok {| Ridder_f := f; Ridder_x1 := a; Ridder_x2 := b; Ridder_verbose := verbose;
            Ridder_tol := tol |}
  | _ => Raise (ValueError
           (Text (str_repeat "expected interval of 2 points, got %i" (length x0))))
  end.

Inductive Ridder_frame : Type :=
| Ridder_entry
| Ridder_loop (x1 fx1 x2 fx2 : num)
| Ridder_done.

Definition Ridder_body (self : Ridder) (x1 fx1 x2 fx2 : num) : step num Ridder_frame :=
  let f := Ridder_f self in
  let x3 := c0_5 * (x1 + x2) in
  fx3 <~ f x3 ;;
  q <~ div (((x3 - x1) * sign A (fx1 - fx2)) * fx3)
           (sqrt A (pow A fx3 2 - fx1 * fx2)) ;;
  let x4 := x3 + q in
  fx4 <~ f x4 ;;
  if absv A fx4 < Ridder_tol self then Yield x4 (absv A (x1 - x2)) Ridder_done else
  let '(x1, fx1, x2, fx2) :=
    if (fx4 * fx2) < c0 then (x4, fx4, x2, fx2) else (x1, fx1, x4, fx4) in
  let error := absv A (x1 - x2) in
  mid <~ div (x1 + x2) c2 ;;
  Yield mid error (Ridder_loop x1 fx1 x2 fx2).

Definition Ridder_next (self : Ridder) (fr : Ridder_frame) : step num Ridder_frame :=
  match fr with
  | Ridder_entry =>
      fx1 <~ Ridder_f self (Ridder_x1 self) ;;
      fx2 <~ Ridder_f self (Ridder_x2 self) ;;
      Ridder_body self (Ridder_x1 self) fx1 (Ridder_x2 self) fx2
  | Ridder_loop x1 fx1 x2 fx2 => Ridder_body self x1 fx1 x2 fx2
  | Ridder_done => Stop
  end.

Definition Ridder_iter (self : Ridder) : iterations num :=
  {| it_frame := Ridder_frame; it_start := Ridder_entry;
     it_next := Ridder_next self; it_maxsteps := Ridder_maxsteps |}.

(** *** Steffensen's transform and the accelerated Newton solver *)

Definition steffensen (f : callable num) : callable num :=
  fun x =>
    fx <- f x ;;
    ffx <- f fx ;;
    div (x * ffx - pow A fx 2) ((ffx - c2 * fx) + x).

Record ANewton : Type := {
  ANewton_x0 : num;
  ANewton_f : callable num;
  ANewton_df : callable num;
  ANewton_phi : callable num;
  ANewton_verbose : bool
}.

Definition ANewton_maxsteps : Z := 20.

(** The map [phi] defined in the constructor. *)
Definition newton_map (f df : callable num) : callable num :=
  fun x =>
    fx <- f x ;;
    dfx <- df x ;;
    q <- div fx dfx ;;
    Ok (x - q).

Definition ANewton_init (f : callable num) (x0 : list num) (kw : kwargs num) : R ANewton :=
  match x0 with
  | [a] =>
      let df := match kw_df kw with
                | None => fun x => diff A f x None
                | Some g => g
                end in
      verbose <- getitem "verbose" (kw_verbose kw) ;;
      Ok {| ANewton_x0 := a; ANewton_f := f; ANewton_df := df;
            ANewton_phi := newton_map f df; ANewton_verbose := verbose |}
  | _ => Raise (ValueError
           (Text (str_repeat "expected 1 starting point, got %i" (length x0))))
  end.

(** The locals of the generator: [x0], [phi], [error] and [counter]. *)
Record ANewton_frame : Type := {
  an_x0 : num;
  an_phi : callable num;
  an_error : num;
  an_counter : Z
}.

(** The test [error and abs(error - preverror) / error < 1]; the division is
    reached with a divisor that is not zero only. *)
Definition converging_slowly (preverror error : num) : bool :=
  if is_zero A error then false
  else quot A (absv A (error - preverror)) error < c1.

Definition ANewton_next (fr : ANewton_frame) : step num ANewton_frame :=
  let prevx := an_x0 fr in
  match an_phi fr (an_x0 fr) with
  | Raise ZeroDivisionError => Stop
  | Raise e => Throw e
  | Ok x0 =>
      let preverror := an_error fr in
      let error := absv A (prevx - x0) in
      let counter := if converging_slowly preverror error
                     then (an_counter fr + 1)%Z else an_counter fr in
      if (3 <=? counter)%Z then
        Yield x0 error {| an_x0 := x0; an_phi := steffensen (an_phi fr);
                          an_error := error; an_counter := 0 |}
      else
        Yield x0 error {| an_x0 := x0; an_phi := an_phi fr;
                          an_error := error; an_counter := counter |}
  end.

Definition ANewton_start (self : ANewton) : ANewton_frame :=
  {| an_x0 := ANewton_x0 self; an_phi := ANewton_phi self; an_error := c0;
     an_counter := 0 |}.

Definition ANewton_iter (self : ANewton) : iterations num :=
  {| it_frame := ANewton_frame; it_start := ANewton_start self;
     it_next := ANewton_next; it_maxsteps := ANewton_maxsteps |}.

(** ** Utilities *)

(** What [findroot] calls as [solver(f, x0, **kwargs)]: a class or a function
    returning a solver instance. *)
Definition solver_class : Type := callable num -> list num -> kwargs num -> R (iterations num).

Definition instantiate {T : Type} (init : callable num -> list num -> kwargs num -> R T)
    (iter : T -> iterations num) : solver_class :=
  fun f x0 kw => self <- init f x0 kw ;; Ok (iter self).

Definition str2solver : list (string * solver_class) :=
  [ ("secant", instantiate Secant_init Secant_iter);
    ("mnewton", instantiate MNewton_init MNewton_iter);
    ("halley", instantiate Halley_init Halley_iter);
    ("muller", instantiate Muller_init Muller_iter);
    ("bisect", instantiate Bisection_init Bisection_iter);
    ("illinois", instantiate Illinois_init Illinois_iter);
    ("pegasus", instantiate Pegasus Illinois_iter);
    ("anderson", instantiate Anderson Illinois_iter);
    ("ridder", instantiate Ridder_init Ridder_iter);
    ("anewton", instantiate ANewton_init (fun self => ANewton_iter self)) ].

(** [d[key]] on a dictionary given by its items. *)
Fixpoint dict_get {V : Type} (d : list (string * V)) (key : string) : option V :=
  match d with
  | [] => None
  | (k, v) :: d' => if String.eqb k key then Some v else dict_get d' key
  end.

(** The [solver] argument: a string alias or a solver class. *)
Inductive solver_arg : Type :=
| By_name (name : string)
| By_class (c : solver_class).

(** The [force_type] argument: a false value such as [None], the default
    [convert_lossless], the builtin types [float] and [complex] that the driver
    compares it with, or another callable. *)
Inductive force_type_arg : Type :=
| FT_false
| FT_convert_lossless
| FT_float
| FT_complex
| FT_callable (g : callable num).

(** The [x0] argument: a list or tuple, or anything else. *)
Inductive x0_arg : Type :=
| Sequence (xs : list num)
| Scalar (x : num).

Record findroot_args : Type := {
  arg_f : callable num;
  arg_x0 : x0_arg;
  arg_solver : solver_arg;
  arg_tol : option num;
  arg_verbose : bool;
  arg_verify : bool;
  arg_force_type : force_type_arg;
  arg_kwargs : kwargs num
}.

(** A call that passes [f] and [x0] and leaves every other argument at its
    default. *)
Definition defaults (f : callable num) (x0 : x0_arg) : findroot_args :=
  {| arg_f := f; arg_x0 := x0;
     arg_solver := By_class (instantiate Secant_init Secant_iter);
     arg_tol := None; arg_verbose := false; arg_verify := true;
     arg_force_type := FT_convert_lossless; arg_kwargs := no_kwargs |}.

(** [not tol] *)
Definition tol_is_false (tol : option num) : bool :=
  match tol with
  | None => true
  | Some t => is_zero A t
  end.

(** The coercion applied to the starting points. *)
Definition findroot_force_type (ft : force_type_arg) : callable num :=
  match ft with
  | FT_false => fun x => Ok x
  | FT_convert_lossless => convert_lossless A
  | FT_float => py_float A
  | FT_complex => py_complex A
  | FT_callable g => g
  end.

(** The tolerance after the initialisation of the arguments. *)
Definition findroot_tol (ft : force_type_arg) (tol : option num) : num :=
  let tol :=
    match ft with
    | FT_false => tol
    | FT_float | FT_complex =>
        if tol_is_false tol then Some (lit A (1 # 4503599627370496)%Q) else tol
    | _ => tol
    end in
  match tol with
  | None => eps A * lit A 1024%Q
  | Some t => t
  end.

(** The keyword dictionary handed to the solver. *)
Definition findroot_kwargs (a : findroot_args) : kwargs num :=
  let kw := arg_kwargs a in
  {| kw_tol := Some (findroot_tol (arg_force_type a) (arg_tol a));
     kw_verbose := Some (arg_verbose a);
     kw_maxsteps := kw_maxsteps kw;
     kw_df := match kw_d1f kw with
              | Some g => Some g
              | None => kw_df kw
              end;
     kw_d1f := kw_d1f kw;
     kw_d2f := kw_d2f kw;
     kw_method := kw_method kw |}.

(** The list of starting points handed to the solver. *)
Definition findroot_x0 (ft : force_type_arg) (x0 : x0_arg) : R (list num) :=
  match x0 with
  | Sequence xs => mapM (findroot_force_type ft) xs
  | Scalar x => x' <- findroot_force_type ft x ;; Ok [x']
  end.

Definition findroot_solver (s : solver_arg) : R solver_class :=
  match s with
  | By_name name =>
      match dict_get str2solver name with
      | Some c => Ok c
      | None => Raise (ValueError (Text "could not recognize solver"))
      end
  | By_class c => Ok c
  end.

Definition findroot_maxsteps (kw : kwargs num) (it : iterations num) : Z :=
  match kw_maxsteps kw with
  | Some m => m
  | None => it_maxsteps it
  end.

(** The variable [x] of [findroot] before the loop. The source is Python 2,
    where the variable of a list comprehension belongs to the enclosing
    function: after [x0 = [force_type(x) for x in x0]] it holds the last
    element of the list or tuple that was passed, if there is one. With any
    other [x0] no comprehension runs and [x] is unbound. *)
Definition comprehension_x (x0 : x0_arg) : option num :=
  match x0 with
  | Sequence xs => last xs
  | Scalar _ => None
  end.

(** The [for] loop of the driver. [i] counts the pairs consumed and [x] is the
    variable [x] of [findroot], which each pair binds anew. The loop breaks as
    soon as [i >= maxsteps], so [budget] continuations suffice when
    [maxsteps - i - 1 <= budget] ([drive_budget] below); the last branch is
    never taken then. *)
Fixpoint drive {S : Type} (next : S -> step num S) (tol : num) (maxsteps : Z)
    (budget : nat) (fr : S) (i : Z) (x : option num) : R (option num) :=
  match next fr with
  | Stop => Ok x
  | Throw e => Raise e
  | Yield x error fr' =>
      let i := (i + 1)%Z in
      if (error < tol) || (maxsteps <=? i)%Z then Ok (Some x)
      else match budget with
           | S budget' => drive next tol maxsteps budget' fr' i (Some x)
           | O => Ok (Some x)
           end
  end.

Definition findroot_loop (it : iterations num) (tol : num) (maxsteps : Z)
    (x : option num) : R (option num) :=
  drive (it_next it) tol maxsteps (Z.to_nat (maxsteps - 1)) (it_start it) 0 x.

Definition nl : string := String "010"%char "".

Definition could_not_find_root : string :=
  "Could not find root within given tolerance. (%g > %g)" ++ nl ++
  "Try another starting point or tweak arguments.".

(** The statements after the loop. *)
Definition findroot_verify (verify : bool) (f : callable num) (tol : num)
    (x : option num) : R num :=
  x <- match x with
       | Some x => Ok x
       | None => Raise (UnboundLocalError "x")
       end ;;
  if verify then
    fx <- f x ;;
    if tol < pow A (absv A fx) 2 then
      fx <- f x ;;
      Raise (ValueError (Format could_not_find_root [ArgNum (absv A fx); ArgNum tol]))
    else Ok x
  else Ok x.

(** The body of [findroot] up to the end of the loop: the value of the
    variable [x], if it is bound. *)
Definition findroot_search (a : findroot_args) : R (option num) :=
  let tol := findroot_tol (arg_force_type a) (arg_tol a) in
  let kw := findroot_kwargs a in
  x0 <- findroot_x0 (arg_force_type a) (arg_x0 a) ;;
  solver <- findroot_solver (arg_solver a) ;;
  iterations <- solver (arg_f a) x0 kw ;;
  let maxsteps := findroot_maxsteps kw iterations in
  findroot_loop iterations tol maxsteps (comprehension_x (arg_x0 a)).

(** The body of [findroot], run by the decorator under the raised precision. *)
Definition findroot_body (a : findroot_args) : R num :=
  x <- findroot_search a ;;
  findroot_verify (arg_verify a) (arg_f a)
    (findroot_tol (arg_force_type a) (arg_tol a)) x.

(** [xrange(n)] *)
Definition xrange (n : Z) : list Z := map Z.of_nat (seq 0 (Z.to_nat n)).

(** The [for] loop of [multiplicity]; [i] is the loop variable. *)
Fixpoint multiplicity_loop (f : callable num) (root tol : num)
    (kw : gmap string (callable num)) (range : list Z) (i : option Z) : R (option Z) :=
  match range with
  | [] => Ok i
  | i :: range' =>
      let dfstr := "d" ++ str_of_int i ++ "f" in
      let df := match kw !! dfstr with
                | Some g => g
                | None => fun x => diff A f x (Some i)
                end in
      v <- df root ;;
      if negb (absv A v < tol) then Ok (Some i)
      else multiplicity_loop f root tol kw range' (Some i)
  end.

Definition multiplicity (f : callable num) (root : num) (tol : option num)
    (maxsteps : option Z) (kw : gmap string (callable num)) : R Z :=
  let tol := match tol with Some t => t | None => eps A end in
  let maxsteps := match maxsteps with Some m => m | None => 10%Z end in
  let kw := <["d0f" := f]> kw in
  i <- multiplicity_loop f root tol kw (xrange maxsteps) None ;;
  match i with
  | Some i => Ok i
  | None => Raise (UnboundLocalError "i")
  end.

End Solvers.

Arguments solver_class num : clear implicits.
Arguments solver_arg num : clear implicits.
Arguments force_type_arg num : clear implicits.
Arguments x0_arg num : clear implicits.
Arguments findroot_args num : clear implicits.
Arguments By_name {num} name.
Arguments By_class {num} c.
Arguments FT_false {num}.
Arguments FT_convert_lossless {num}.
Arguments FT_float {num}.
Arguments FT_complex {num}.
Arguments FT_callable {num} g.
Arguments Sequence {num} xs.
Arguments Scalar {num} x.

(** ** The working precision

    The library keeps one global setting, the working precision, which the
    arithmetic and every callable built on it read. A computation that reads
    it is a function of the precision in force; one that may set it returns
    the precision it leaves behind as well. *)

(** Modelled from the spec: the decorator [extraprec] of module [mptypes],
    which is not among the sources. It is "a scoped wrapper that raises
    working precision for the duration of the driver's solve and restores it
    afterward regardless of success or failure". *)
Definition extraprec {T : Type} (n : Z) (body : Z -> T) : Z -> Z * T :=
  fun prec => (prec, body (prec + n)).

(** [findroot] as decorated with [@extraprec(20)]. [mp prec] is the arithmetic
    of the library at working precision [prec], and [a prec] the arguments of
    the call as they behave at that precision (the callables among them read
    the precision in force when they are called). *)
Definition findroot {num : Type} (mp : Z -> Arith num) (a : Z -> findroot_args num)
  : Z -> Z * res num num :=
  extraprec 20 (fun prec => findroot_body (mp prec) (a prec)).

(** ** Exact arithmetic

    An arithmetic to run the solvers on: values are rationals, computed
    exactly and kept in lowest terms, and tagged as a plain Python float or
    as a number of the library. An operation on two floats gives a float, any
    other a number of the library. Only [eps] depends on the precision. *)
Module Exact.

Inductive value : Type :=
| Float (q : Q)
| Mpf (q : Q).

Definition val (v : value) : Q :=
  match v with
  | Float q => q
  | Mpf q => q
  end.

Definition lift1 (op : Q -> Q) (a : value) : value :=
  match a with
  | Float x => Float (Qred (op x))
  | Mpf x => Mpf (Qred (op x))
  end.

Definition lift2 (op : Q -> Q -> Q) (a b : value) : value :=
  match a, b with
  | Float x, Float y => Float (Qred (op x y))
  | _, _ => Mpf (Qred (op (val a) (val b)))
  end.

(** The square root of a rational whose numerator and denominator are
    squares, rounded down on the others. *)
Definition Qsqrt (q : Q) : Q :=
  (Z.sqrt (Qnum q * Zpos (Qden q)) # Qden q)%Q.

Definition Qsign (q : Q) : Q := (Z.sgn (Qnum q) # 1)%Q.

Definition step_size : value := Mpf (1 # 1024)%Q.

(** Forward differences of order [n]. *)
Fixpoint forward_diff (f : callable value) (n : nat) (x : value) : res value value :=
  match n with
  | O => f x
  | S n' =>
      a <- forward_diff f n' (lift2 Qplus x step_size) ;;
      b <- forward_diff f n' x ;;
      Ok (lift2 Qdiv (lift2 Qminus a b) step_size)
  end.

(** Modelled from the spec: [convert_lossless] of module [mptypes], which is
    not among the sources. The coercion is "used to project plain values into
    the working numeric type": a plain float becomes the number of the library
    of the same value, and a number of the library is returned as it is. *)
Definition lossless (a : value) : res value value := Ok (Mpf (val a)).

Definition mp (prec : Z) : Arith value :=
  {| lit := fun q => Float (Qred q);
     add := lift2 Qplus;
     sub := lift2 Qminus;
     mul := lift2 Qmult;
     quot := lift2 Qdiv;
     neg := lift1 Qopp;
     pow := fun a n => lift1 (fun x => Qpower x n) a;
     absv := lift1 Qabs;
     sqrt := lift1 Qsqrt;
     sign := lift1 Qsign;
     ltb := fun a b => negb (Qle_bool (val b) (val a));
     is_zero := fun a => Qeq_bool (val a) 0;
     diff := fun f x n =>
               forward_diff f (match n with Some n => Z.to_nat n | None => 1%nat end) x;
     convert_lossless := lossless;
     py_float := fun a => Ok (Float (val a));
     py_complex := fun a => Ok (Float (val a));
     eps := Mpf (Qred (Qpower 2 (1 - prec))) |}.

(** The arithmetic at the standard precision of 53 bits. *)
Definition A : Arith value := mp 53.

End Exact.

(** ** Notions used in the statements *)

Section Notions.

Context {num : Type} (A : Arith num).

(** The test that breaks the loop of the driver after the [i]-th pair. *)
Definition stops (tol : num) (maxsteps : Z) (i : Z) (error : num) : bool :=
  ltb A error tol || (maxsteps <=? i)%Z.

(** None of the pairs [ps], consumed after [i] others, breaks the loop. *)
Fixpoint keeps_going (tol : num) (maxsteps : Z) (i : Z) (ps : list (num * num)) : bool :=
  match ps with
  | [] => true
  | (_, error) :: ps' =>
      negb (stops tol maxsteps (i + 1) error) && keeps_going tol maxsteps (i + 1) ps'
  end.

(** Whether the step of ANewton that leaves the frame [fr] with the error
    estimate [error] is counted as slow, and whether it replaces the map. *)
Definition an_slow (fr : ANewton_frame) (error : num) : bool :=
  converging_slowly A (an_error fr) error.

Definition an_accelerates (fr : ANewton_frame) (error : num) : bool :=
  (3 <=? (if an_slow fr error then an_counter fr + 1 else an_counter fr))%Z.

(** Both flags for each of the first [n] steps of ANewton from [fr]. *)
Fixpoint ANewton_flags (n : nat) (fr : ANewton_frame) : list (bool * bool) :=
  match n with
  | O => []
  | S n' =>
      match ANewton_next A fr with
      | Yield x error fr' =>
          (an_slow fr error, an_accelerates fr error) :: ANewton_flags n' fr'
      | _ => []
      end
  end.

(** The derivative of order [i] that [multiplicity] evaluates. *)
Definition derivative (f : callable num) (kw : gmap string (callable num)) (i : Z)
  : callable num :=
  match (<["d0f" := f]> kw) !! ("d" ++ str_of_int i ++ "f") with
  | Some g => g
  | None => fun x => diff A f x (Some i)
  end.

(** Whether the magnitude of the derivative of order [i] at [root] is below
    [tol]. *)
Definition below (f : callable num) (kw : gmap string (callable num)) (root tol : num)
    (i : Z) : res num bool :=
  v <- derivative f kw i root ;; Ok (ltb A (absv A v) tol).

End Notions.

(** Which steps replace the map, given which steps are slow: the slow steps
    are counted, and the step that brings the count to 3 replaces the map and
    resets the count. *)
Fixpoint counted_rule (counter : Z) (slow : list bool) : list bool :=
  match slow with
  | [] => []
  | s :: slow' =>
      let counter := if s then (counter + 1)%Z else counter in
      if (3 <=? counter)%Z then true :: counted_rule 0 slow'
      else false :: counted_rule counter slow'
  end.

(** The same in the words of the specification: the map is replaced when the
    error reduction has stalled for 3 consecutive steps, so that a step that
    is not slow starts the count again. *)
Fixpoint consecutive_rule (run : Z) (slow : list bool) : list bool :=
  match slow with
  | [] => []
  | s :: slow' =>
      let run := if s then (run + 1)%Z else 0%Z in
      if (3 <=? run)%Z then true :: consecutive_rule 0 slow'
      else false :: consecutive_rule run slow'
  end.

(** The numbers of starting points each solver takes. *)
Definition cardinalities : list (string * list nat) :=
  [ ("secant", [1; 2]%nat); ("mnewton", [1%nat]); ("halley", [1%nat]);
    ("muller", [1; 2; 3]%nat); ("bisect", [2%nat]); ("illinois", [2%nat]);
    ("pegasus", [2%nat]); ("anderson", [2%nat]); ("ridder", [2%nat]);
    ("anewton", [1%nat]) ].

Definition accepts (name : string) (n : nat) : bool :=
  match dict_get cardinalities name with
  | Some l => existsb (Nat.eqb n) l
  | None => false
  end.

(** The keyword dictionary [kw] with [df] and [d2f] set or removed. *)
Definition with_derivatives {num : Type} (df d2f : option (callable num)) (kw : kwargs num)
  : kwargs num :=
  {| kw_tol := kw_tol kw; kw_verbose := kw_verbose kw; kw_maxsteps := kw_maxsteps kw;
     kw_df := df; kw_d1f := kw_d1f kw; kw_d2f := d2f; kw_method := kw_method kw |}.

(** ** Inputs of the examples *)

Module Inputs.
Import Exact.

Definition int (z : Z) : value := Mpf (inject_Z z).

(** [f(x) = 2*x - 1] *)
Definition linear : callable value :=
  fun x => Ok (sub A (mul A (lit A 2) x) (lit A 1)).

(** [f(x) = x**2], [f'(x) = 2*x], [f''(x) = 2] *)
Definition square : callable value := fun x => Ok (pow A x 2).
Definition square' : callable value := fun x => Ok (mul A (lit A 2) x).
Definition square'' : callable value := fun x => Ok (lit A 2).



(** [findroot(f, (a, b), solver='anderson')] *)
Definition call_anderson (f : callable value) (a b : Q) : findroot_args value :=
  {| arg_f := f; arg_x0 := Sequence [Float a; Float b];
     arg_solver := By_name "anderson";
     arg_tol := None; arg_verbose := false; arg_verify := true;
     arg_force_type := FT_convert_lossless; arg_kwargs := no_kwargs |}.

(** [findroot(linear, (1, 1))] *)
Definition call_equal_points : findroot_args value :=
  defaults A linear (Sequence [Float 1; Float 1]).

(** [findroot(linear, (0, 1, 2), solver='secant')] *)
Definition call_three_points : findroot_args value :=
  {| arg_f := linear; arg_x0 := Sequence [Float 0; Float 1; Float 2];
     arg_solver := By_name "secant";
     arg_tol := None; arg_verbose := false; arg_verify := true;
     arg_force_type := FT_convert_lossless; arg_kwargs := no_kwargs |}.

(** [findroot(linear, 0, solver='newton')] *)
Definition call_unknown_solver : findroot_args value :=
  {| arg_f := linear; arg_x0 := Scalar (Float 0);
     arg_solver := By_name "newton";
     arg_tol := None; arg_verbose := false; arg_verify := true;
     arg_force_type := FT_convert_lossless; arg_kwargs := no_kwargs |}.

(** [findroot(square, 2, solver='mnewton', df=square', d2f=square'')] *)
Definition call_mnewton : findroot_args value :=
  {| arg_f := square; arg_x0 := Scalar (Float 2);
     arg_solver := By_name "mnewton";
     arg_tol := None; arg_verbose := false; arg_verify := true;
     arg_force_type := FT_convert_lossless;
     arg_kwargs := with_derivatives (Some square') (Some square'') no_kwargs |}.

(** [f(x) = -1] with a derivative given as [1/4] below 4, [1/3] below 7,
    [1/2] below 9 and [1] from 9 on: the Newton steps from 0 have the lengths
    4, 3, 2, 1, 1. *)
Definition minus_one : callable value := fun _ => Ok (int (-1)).

Definition stairs : callable value :=
  fun x =>
    if ltb A x (int 4) then Ok (Mpf (1 # 4))
    else if ltb A x (int 7) then Ok (Mpf (1 # 3))
    else if ltb A x (int 9) then Ok (Mpf (1 # 2))
    else Ok (int 1).

Definition stairs_start : ANewton_frame :=
  {| an_x0 := int 0; an_phi := newton_map A minus_one stairs;
     an_error := lit A 0; an_counter := 0 |}.

(** The flags of the first five steps from [stairs_start]. *)
Definition stairs_flags : list (bool * bool) := ANewton_flags A 5 stairs_start.

(** [f(x) = x**3] *)
Definition cube : callable value := fun x => Ok (pow A x 3).

(** [f'(x) = 3*x**2] and [f''(x) = 6*x] *)
Definition cube' : callable value := fun x => Ok (mul A (lit A 3) (pow A x 2)).
Definition cube'' : callable value := fun x => Ok (mul A (lit A 6) x).

(** The keywords [d1f=cube', d2f=cube''] *)
Definition cube_derivatives : gmap string (callable value) :=
  <["d1f" := cube']> (<["d2f" := cube'']> ∅).

(** [findroot(linear, 0)] *)
Definition call_linear_default : findroot_args value := defaults A linear (Scalar (Float 0)).

(** [findroot(square, 0, solver='mnewton')] *)
Definition call_mnewton_at_root : findroot_args value :=
  {| arg_f := square; arg_x0 := Scalar (Float 0);
     arg_solver := By_name "mnewton";
     arg_tol := None; arg_verbose := false; arg_verify := true;
     arg_force_type := FT_convert_lossless; arg_kwargs := no_kwargs |}.

(** [f(x) = x] *)
Definition identity : callable value := fun x => Ok x.

(** A callable that divides by zero, and the keyword [d1f] set to it. *)
Definition dividing_by_zero : callable value := fun _ => Raise ZeroDivisionError.

Definition broken_derivative : gmap string (callable value) :=
  <["d1f" := dividing_by_zero]> ∅.

(** [findroot(linear, 0, solver='bisect')] *)
Definition call_bisect_scalar : findroot_args value :=
  {| arg_f := linear; arg_x0 := Scalar (Float 0);
     arg_solver := By_name "bisect";
     arg_tol := None; arg_verbose := false; arg_verify := true;
     arg_force_type := FT_convert_lossless; arg_kwargs := no_kwargs |}.

(** [findroot(square, 1, solver='anewton', df=identity, d1f=square')] *)
Definition call_d1f : findroot_args value :=
  {| arg_f := square; arg_x0 := Scalar (Float 1);
     arg_solver := By_name "anewton";
     arg_tol := None; arg_verbose := false; arg_verify := true;
     arg_force_type := FT_convert_lossless;
     arg_kwargs := {| kw_tol := None; kw_verbose := None; kw_maxsteps := None;
                      kw_df := Some identity; kw_d1f := Some square';
                      kw_d2f := None; kw_method := None |} |}.

(** [Bisection(identity, [-1, 1])] *)
Definition bisection_identity : Bisection :=
  {| Bisection_f := identity; Bisection_a := int (-1); Bisection_b := int 1 |}.

(** [phi(x) = x/2], with the fixed point 0 *)
Definition half : callable value := fun x => Ok (mul A (lit A (1 # 2)) x).

(** [f(x) = 5] *)
Definition five : callable value := fun _ => Ok (int 5).

(** [Muller(f, [0, 1, x2], verbose=False)] *)
Definition muller (f : callable value) (x2 : Z) : Muller :=
  {| Muller_x0 := int 0; Muller_x1 := int 1; Muller_x2 := int x2; Muller_f := f;
     Muller_verbose := false |}.

(** [Ridder(linear, [0, 1], tol=1/1000, verbose=False)] *)
Definition ridder_linear : Ridder :=
  {| Ridder_f := linear; Ridder_x1 := int 0; Ridder_x2 := int 1;
     Ridder_verbose := false; Ridder_tol := Mpf (1 # 1000) |}.

(** [Illinois(linear, [0, 1], tol=1/1000, verbose=False)] *)
Definition illinois_linear : Illinois :=
  {| Illinois_a := int 0; Illinois_b := int 1; Illinois_f := linear;
     Illinois_tol := Mpf (1 # 1000); Illinois_verbose := false;
     Illinois_method := "illinois"; Illinois_getm := fun _ _ => Ok (lit A (1 # 2)) |}.

(** [Illinois(square, [a, b], tol=1/1000, verbose=False)] *)
Definition illinois_square (a b : Z) : Illinois :=
  {| Illinois_a := int a; Illinois_b := int b; Illinois_f := square;
     Illinois_tol := Mpf (1 # 1000); Illinois_verbose := false;
     Illinois_method := "illinois"; Illinois_getm := fun _ _ => Ok (lit A (1 # 2)) |}.

End Inputs.

(** ** Further notions *)

Section Further.

Context {num : Type} (A : Arith num).

(** The error estimates of the first [n] pairs of Bisection on an interval
    of length [l]. *)
Fixpoint halvings (l : num) (n : nat) : list num :=
  match n with
  | O => []
  | S n' =>
      let l := quot A l (lit A 2) in
      absv A l :: halvings l n'
  end.

(** The methods that [_getm] knows. *)
Definition known_method (method : string) : bool :=
  String.eqb method "illinois" || String.eqb method "pegasus"
  || String.eqb method "anderson".

(** The frames of Secant in which [f0] is the value of [f] at [x0] and [x1]
    is the approximation yielded last. *)
Definition Secant_frame_ok (f : callable num) (last : option num) (fr : Secant_frame)
  : Prop :=
  match fr with
  | Secant_entry => last = None
  | Secant_loop x0 x1 f0 => f x0 = Ok f0 /\ last = Some x1
  end.

(** The approximation of the last of the pairs [ps]. *)
Definition last_x (ps : list (num * num)) : option num :=
  option_map fst (last ps).

(** The approximation yielded last is a point where the magnitude of [f]
    is below [tol]. *)
Definition cancelled (f : callable num) (tol : num) (last : option num) : Prop :=
  exists x v, last = Some x /\ f x = Ok v /\ ltb A (absv A v) tol = true.

(** The frames of Ridder and of the Illinois family: the frame reached
    through the early exit is reached on such a point only. *)
Definition Ridder_frame_ok (self : Ridder) (last : option num)
    (fr : @Ridder_frame num) : Prop :=
  match fr with
  | Ridder_done => cancelled (Ridder_f self) (Ridder_tol self) last
  | _ => True
  end.

Definition Illinois_frame_ok (self : Illinois) (last : option num)
    (fr : @Illinois_frame num) : Prop :=
  match fr with
  | Illinois_done => cancelled (Illinois_f self) (Illinois_tol self) last
  | _ => True
  end.

(** The interval of a frame of the Illinois family has length zero. *)
Definition Illinois_collapsed (self : Illinois) (fr : @Illinois_frame num) : Prop :=
  match fr with
  | Illinois_entry => is_zero A (sub A (Illinois_b self) (Illinois_a self)) = true
  | Illinois_loop a b _ _ => is_zero A (sub A b a) = true
  | Illinois_done => False
  end.

(** The [maxsteps] attribute of each solver. *)
Definition default_maxsteps : list (string * Z) :=
  [ ("secant", 30%Z); ("mnewton", 20%Z); ("halley", 20%Z); ("muller", 30%Z);
    ("bisect", 100%Z); ("illinois", 30%Z); ("pegasus", 30%Z); ("anderson", 30%Z);
    ("ridder", 30%Z); ("anewton", 20%Z) ].

(** The number of starting points that a call of [findroot] supplies. *)
Definition supplied (x0 : x0_arg num) : nat :=
  match x0 with
  | Sequence xs => length xs
  | Scalar _ => 1%nat
  end.

End Further.

(** * Properties *)

(** ** The result monad *)

Lemma bind_Ok {num A B : Type} (m : res num A) (k : A -> res num B) (a : A) :
  m = Ok a -> bind m k = k a.
Proof. intros ->. reflexivity. Qed.

Lemma mapM_Ok_id {num : Type} (g : callable num) (xs : list num) :
  Forall (fun x => g x = Ok x) xs -> mapM g xs = Ok xs.
Proof.
  induction 1 as [|x xs Hx _ IH]; simpl.
  - reflexivity.
  - rewrite Hx. simpl. rewrite IH. reflexivity.
Qed.

Lemma mapM_length {num A B : Type} (g : A -> res num B) (l : list A) (l' : list B) :
  mapM g l = Ok l' -> length l' = length l.
Proof.
  revert l'. induction l as [|a l IH]; simpl; intros l' H.
  - inversion H. reflexivity.
  - destruct (g a) as [b|e]; simpl in H; [|discriminate].
    destruct (mapM g l) as [bs|e]; simpl in H; [|discriminate].
    inversion H; subst. simpl. f_equal. apply IH. reflexivity.
Qed.

(** ** The loop of the driver *)

Section Driver.

Context {num : Type} (A : Arith num).

(** The budget of [drive] is never exhausted: any two budgets that cover the
    steps left give the same result. *)
Lemma drive_budget {S : Type} (next : S -> step num S) (tol : num) (maxsteps : Z)
    (b1 b2 : nat) :
  forall (fr : S) (i : Z) (x : option num),
    (maxsteps - i - 1 <= Z.of_nat b1)%Z -> (maxsteps - i - 1 <= Z.of_nat b2)%Z ->
    drive A next tol maxsteps b1 fr i x = drive A next tol maxsteps b2 fr i x.
Proof.
  revert b2. induction b1 as [|b1 IH]; intros b2 fr i x H1 H2.
  - destruct b2 as [|b2]; [reflexivity|]. simpl.
    destruct (next fr) as [x' e fr'| |err]; try reflexivity.
    destruct (ltb A e tol); simpl; [reflexivity|].
    destruct (Z.leb_spec maxsteps (i + 1)); [reflexivity|]. simpl in H1. lia.
  - destruct b2 as [|b2]; simpl.
    + destruct (next fr) as [x' e fr'| |err]; try reflexivity.
      destruct (ltb A e tol); simpl; [reflexivity|].
      destruct (Z.leb_spec maxsteps (i + 1)); [reflexivity|]. simpl in H2. lia.
    + destruct (next fr) as [x' e fr'| |err]; try reflexivity.
      destruct (ltb A e tol); simpl; [reflexivity|].
      destruct (Z.leb_spec maxsteps (i + 1)); [reflexivity|].
      apply IH; lia.
Qed.


Lemma findroot_search_eq (a : findroot_args num) (xs : list num) (cls : solver_class num)
    (it : iterations num) :
  findroot_x0 A (arg_force_type a) (arg_x0 a) = Ok xs ->
  findroot_solver A (arg_solver a) = Ok cls ->
  cls (arg_f a) xs (findroot_kwargs A a) = Ok it ->
  findroot_search A a =
    findroot_loop A it (findroot_tol A (arg_force_type a) (arg_tol a))
      (findroot_maxsteps (findroot_kwargs A a) it) (comprehension_x (arg_x0 a)).
Proof.
  intros Hx Hs Hc. unfold findroot_search. rewrite Hx. simpl. rewrite Hs. simpl.
  rewrite Hc. reflexivity.
Qed.



Lemma findroot_loop_Stop (it : iterations num) (tol : num) (maxsteps : Z)
    (x : option num) :
  it_next it (it_start it) = Stop -> findroot_loop A it tol maxsteps x = Ok x.
Proof.
  intros Hstop. unfold findroot_loop.
  destruct (Z.to_nat (maxsteps - 1)); simpl; rewrite Hstop; reflexivity.
Qed.

(** C10, as amended. When the solver's sequence ends before its first pair,
    the loop binds nothing and [findroot] goes on with the [x] it had before
    the loop. For an [x0] that is not a list or tuple, and for an empty one,
    [x] is unbound and [findroot] fails with an unbound-local error, whatever
    [verify] is. For a list or tuple that is not empty, [x] is its last
    element as it was passed, left by the list comprehension, and [findroot]
    verifies and returns that. Secant built on two equal starting points is a
    solver with such a sequence: its first step length is zero. *)
Theorem findroot_empty_sequence (a : findroot_args num) (xs : list num)
    (cls : solver_class num) (it : iterations num) :
  let tol := findroot_tol A (arg_force_type a) (arg_tol a) in
  findroot_x0 A (arg_force_type a) (arg_x0 a) = Ok xs ->
  findroot_solver A (arg_solver a) = Ok cls ->
  cls (arg_f a) xs (findroot_kwargs A a) = Ok it ->
  it_next it (it_start it) = Stop ->
  findroot_search A a = Ok (comprehension_x (arg_x0 a)) /\
  (forall y : num, arg_x0 a = Scalar y ->
                   findroot_body A a = Raise (UnboundLocalError "x")) /\
  (arg_x0 a = Sequence [] -> findroot_body A a = Raise (UnboundLocalError "x")) /\
  (forall (ys : list num) (y : num),
      arg_x0 a = Sequence (ys ++ [y])%list ->
      findroot_body A a = findroot_verify A (arg_verify a) (arg_f a) tol (Some y)) /\
  (forall (f : callable num) (p v : num) (kw : kwargs num),
      f p = Ok v -> is_zero A (sub A p p) = true ->
      exists self, Secant_init A f [p; p] kw = Ok self /\
                   it_next (Secant_iter A self) (it_start (Secant_iter A self)) = Stop).
Proof.
  intros tol Hx Hs Hc Hstop.
  assert (Hsearch : findroot_search A a = Ok (comprehension_x (arg_x0 a))).
  { rewrite (findroot_search_eq a xs cls it Hx Hs Hc).
    apply findroot_loop_Stop. exact Hstop. }
  split; [exact Hsearch|]. split; [|split; [|split]].
  - intros y Hy. unfold findroot_body. rewrite Hsearch, Hy. reflexivity.
  - intros Hy. unfold findroot_body. rewrite Hsearch, Hy. reflexivity.
  - intros ys y Hy. unfold findroot_body. rewrite Hsearch, Hy.
    cbn [comprehension_x]. rewrite last_snoc. reflexivity.
  - intros f p v kw Hf Hz. eexists. split; [reflexivity|].
    simpl. rewrite Hf. simpl. unfold Secant_body. rewrite Hf. simpl.
    rewrite Hz. reflexivity.
Qed.

End Driver.



Lemma findroot_empty_sequence_witness :
  findroot_body Exact.A Inputs.call_mnewton_at_root = Raise (UnboundLocalError "x") /\
  findroot_body Exact.A Inputs.call_equal_points =
    findroot_verify Exact.A true Inputs.linear
      (findroot_tol Exact.A FT_convert_lossless None) (Some (Exact.Float 1)).
Proof.
  split.
  - refine (proj1 (proj2 (findroot_empty_sequence Exact.A Inputs.call_mnewton_at_root
                            [Exact.Mpf 0]
                            (instantiate (MNewton_init Exact.A) (MNewton_iter Exact.A))
                            (MNewton_iter Exact.A
                               {| MNewton_x0 := Exact.Mpf 0;
                                  MNewton_f := Inputs.square;
                                  MNewton_df := fun x =>
                                    diff Exact.A Inputs.square x None;
                                  MNewton_d2f := fun x =>
                                    diff Exact.A
                                      (fun y => diff Exact.A Inputs.square y None)
                                      x None |}) _ _ _ _))
              (Exact.Float 0) _); reflexivity.
  - refine (proj1 (proj2 (proj2 (proj2
              (findroot_empty_sequence Exact.A Inputs.call_equal_points
                 [Exact.Mpf 1; Exact.Mpf 1]
                 (instantiate (Secant_init Exact.A) (Secant_iter Exact.A))
                 (Secant_iter Exact.A
                    {| Secant_f := Inputs.linear; Secant_x0 := Exact.Mpf 1;
                       Secant_x1 := Exact.Mpf 1 |}) _ _ _ _))))
              [Exact.Float 1] (Exact.Float 1) _); reflexivity.
Defined.

(** [findroot(linear, (1, 1))]: Secant yields nothing on the two equal
    points, and [x] is the second of them, where [f] is 1: the call raises
    the validation error, not an unbound-local error. *)
Lemma equal_points_leave_x_bound :
  Secant_next Exact.A
    {| Secant_f := Inputs.linear; Secant_x0 := Exact.Mpf 1; Secant_x1 := Exact.Mpf 1 |}
    Secant_entry = Stop /\
  findroot_body Exact.A Inputs.call_equal_points =
    Raise (ValueError
             (Format could_not_find_root
                     [ArgNum (Exact.Float 1);
                      ArgNum (findroot_tol Exact.A FT_convert_lossless None)])) /\
  findroot_body Exact.A Inputs.call_equal_points <> Raise (UnboundLocalError "x").
Proof.
  split; [vm_compute; reflexivity|].
  split; [vm_compute; reflexivity|].
  vm_compute. discriminate.
Qed.

(** ** Construction of the solvers *)

Section Construction.

Context {num : Type} (A : Arith num).

Ltac wrong_length xs H :=
  destruct xs as [|? [|? [|? [|? ?]]]]; simpl in H; try discriminate H;
  eexists; reflexivity.

Lemma constructor_checks_cardinality (name : string) (cls : solver_class num)
    (f : callable num) (xs : list num) (kw : kwargs num) :
  dict_get (str2solver A) name = Some cls ->
  accepts name (length xs) = false ->
  exists msg, cls f xs kw = Raise (ValueError msg).
Proof.
  unfold accepts, str2solver, cardinalities. cbn [dict_get].
  repeat (destruct (String.eqb _ name);
          [ intros Hc Hn; injection Hc as <-;
            unfold instantiate, Pegasus, Anderson, Muller_init; wrong_length xs Hn | ]).
  discriminate.
Qed.

(** C3. Every solver of the family refuses a list of starting points of the
    wrong length with a [ValueError] raised by its constructor, so that no
    pair is ever produced, and [findroot] refuses a solver name that is not
    among the recognised ones with a [ValueError] as well. *)
Theorem configuration_errors :
  (forall (name : string) (cls : solver_class num) (f : callable num) (xs : list num)
          (kw : kwargs num),
      dict_get (str2solver A) name = Some cls ->
      accepts name (length xs) = false ->
      exists msg, cls f xs kw = Raise (ValueError msg)) /\
  (forall (a : findroot_args num) (name : string) (cls : solver_class num)
          (xs : list num),
      arg_solver a = By_name name ->
      dict_get (str2solver A) name = Some cls ->
      findroot_x0 A (arg_force_type a) (arg_x0 a) = Ok xs ->
      accepts name (length xs) = false ->
      exists msg, findroot_body A a = Raise (ValueError msg)) /\
  (forall (a : findroot_args num) (name : string) (xs : list num),
      arg_solver a = By_name name ->
      dict_get (str2solver A) name = None ->
      findroot_x0 A (arg_force_type a) (arg_x0 a) = Ok xs ->
      findroot_body A a = Raise (ValueError (Text "could not recognize solver"))).
Proof.
  split; [|split].
  - intros name cls f xs kw. apply constructor_checks_cardinality.
  - intros a name cls xs Hs Hd Hx Hn.
    destruct (constructor_checks_cardinality name cls (arg_f a) xs
                (findroot_kwargs A a) Hd Hn) as [msg Hm].
    assert (Hsolver : findroot_solver A (arg_solver a) = Ok cls).
    { rewrite Hs. unfold findroot_solver. rewrite Hd. reflexivity. }
    exists msg. unfold findroot_body, findroot_search.
    rewrite Hx. cbn [bind]. rewrite Hsolver. cbn [bind]. rewrite Hm. reflexivity.
  - intros a name xs Hs Hd Hx.
    assert (Hsolver : findroot_solver A (arg_solver a) =
                      Raise (ValueError (Text "could not recognize solver"))).
    { rewrite Hs. unfold findroot_solver. rewrite Hd. reflexivity. }
    unfold findroot_body, findroot_search.
    rewrite Hx. cbn [bind]. rewrite Hsolver. reflexivity.
Qed.

(** ** Secant *)


(** ** The derivatives of the Newton family *)

(** C5. What the constructors of MNewton and Halley store as second
    derivative: without a [d2f] keyword, the numeric derivative of the first
    derivative; with a [d2f] keyword, the value of the [df] keyword, and a
    [KeyError] when there is no [df] keyword. The callable passed as [d2f] is
    never called. *)
Theorem d2f_keyword_reads_df (f g h : callable num) (a : num) (kw : kwargs num) :
  (MNewton_init A f [a] (with_derivatives (Some g) (Some h) kw) =
     Ok {| MNewton_x0 := a; MNewton_f := f; MNewton_df := g; MNewton_d2f := g |} /\
   Halley_init A f [a] (with_derivatives (Some g) (Some h) kw) =
     Ok {| Halley_x0 := a; Halley_f := f; Halley_df := g; Halley_d2f := g |}) /\
  (MNewton_init A f [a] (with_derivatives None (Some h) kw) = Raise (KeyError "df") /\
   Halley_init A f [a] (with_derivatives None (Some h) kw) = Raise (KeyError "df")) /\
  (MNewton_init A f [a] (with_derivatives (Some g) None kw) =
     Ok {| MNewton_x0 := a; MNewton_f := f; MNewton_df := g;
           MNewton_d2f := fun x => diff A g x None |} /\
   Halley_init A f [a] (with_derivatives (Some g) None kw) =
     Ok {| Halley_x0 := a; Halley_f := f; Halley_df := g;
           Halley_d2f := fun x => diff A g x None |}).
Proof. repeat split; reflexivity. Qed.

(** ** The coercion of the starting points *)

(** C6. With [force_type] left at its default the driver applies
    [convert_lossless] to each starting point; the points reach the solver
    unchanged when [convert_lossless] leaves them unchanged, and when
    [force_type] is a false value, for which the driver installs the
    identity. *)
Theorem findroot_default_coercion (f : callable num) (x0 : x0_arg num) (xs : list num) :
  let ft := arg_force_type (defaults A f x0) in
  Forall (fun x => convert_lossless A x = Ok x) xs ->
  findroot_force_type A ft = convert_lossless A /\
  findroot_x0 A ft (Sequence xs) = Ok xs /\
  (forall ys : list num,
      findroot_x0 A ft (Sequence ys) = mapM (convert_lossless A) ys /\
      findroot_x0 A FT_false (Sequence ys) = Ok ys) /\
  (forall y : num,
      findroot_x0 A ft (Scalar y) = (y' <- convert_lossless A y ;; Ok [y']) /\
      findroot_x0 A FT_false (Scalar y) = Ok [y]).
Proof.
  intros ft Hxs. split; [reflexivity|]. split; [|split].
  - simpl. apply mapM_Ok_id. exact Hxs.
  - intros ys. split; [reflexivity|]. simpl. apply mapM_Ok_id.
    induction ys; constructor; [reflexivity|assumption].
  - intros y. split; reflexivity.
Qed.

End Construction.

Lemma configuration_errors_witness :
  (exists msg, findroot_body Exact.A Inputs.call_three_points = Raise (ValueError msg)) /\
  findroot_body Exact.A Inputs.call_unknown_solver =
    Raise (ValueError (Text "could not recognize solver")).
Proof.
  destruct (configuration_errors Exact.A) as [_ [Hcard Hname]]. split.
  - apply (Hcard Inputs.call_three_points "secant"
             (instantiate (Secant_init Exact.A) (Secant_iter Exact.A))
             [Exact.Mpf 0; Exact.Mpf 1; Exact.Mpf 2]); reflexivity.
  - apply (Hname Inputs.call_unknown_solver "newton" [Exact.Mpf 0]); reflexivity.
Defined.

(** ** Laws of the exact arithmetic *)

Lemma Exact_val_lift2 (op : Q -> Q -> Q) (a b : Exact.value) :
  Exact.val (Exact.lift2 op a b) = Qred (op (Exact.val a) (Exact.val b)).
Proof. destruct a, b; reflexivity. Qed.



Lemma Exact_quot_zero (a b : Exact.value) :
  is_zero Exact.A a = true -> is_zero Exact.A (quot Exact.A a b) = true.
Proof.
  simpl. intros Ha. apply Qeq_bool_iff in Ha. apply Qeq_bool_iff.
  rewrite Exact_val_lift2, Qred_correct, Ha. unfold Qdiv. apply Qmult_0_l.
Qed.


(** With the derivatives of [x**2] passed as [df] and [d2f], the modified
    Newton step from 2 divides by [f'(2) - f(2)*f'(2)/f'(2) = 0], where the
    second derivative [f''(2) = 2] gives the divisor 2 and the root 0. *)
Example MNewton_d2f_example :
  findroot_body Exact.A Inputs.call_mnewton = Raise ZeroDivisionError /\
  MNewton_next Exact.A
    {| MNewton_x0 := Inputs.int 2; MNewton_f := Inputs.square;
       MNewton_df := Inputs.square'; MNewton_d2f := Inputs.square'' |} (Inputs.int 2) =
    Yield (Inputs.int 0) (Inputs.int 2) (Inputs.int 0).
Proof. split; vm_compute; reflexivity. Qed.

Lemma findroot_default_coercion_witness :
  findroot_x0 Exact.A FT_convert_lossless (Sequence [Inputs.int 1; Inputs.int 2]) =
    Ok [Inputs.int 1; Inputs.int 2].
Proof.
  refine (proj1 (proj2 (findroot_default_coercion Exact.A Inputs.linear
                          (Scalar (Inputs.int 0)) [Inputs.int 1; Inputs.int 2] _))).
  repeat constructor.
Defined.

(** The plain number 3 reaches the solver as a number of the library. *)
Lemma default_force_type_is_not_identity :
  arg_force_type (defaults Exact.A Inputs.linear (Scalar (Exact.Float 3))) =
    FT_convert_lossless /\
  findroot_x0 Exact.A FT_convert_lossless (Scalar (Exact.Float 3)) = Ok [Exact.Mpf 3] /\
  findroot_x0 Exact.A FT_convert_lossless (Scalar (Exact.Float 3)) <> Ok [Exact.Float 3].
Proof. repeat split. discriminate. Qed.

(** ** The accelerated Newton solver *)

Section Accelerated.

Context {num : Type} (A : Arith num).

Lemma ANewton_next_Yield (fr fr' : ANewton_frame) (x e : num) :
  ANewton_next A fr = Yield x e fr' ->
  an_phi fr (an_x0 fr) = Ok x /\
  e = absv A (sub A (an_x0 fr) x) /\
  fr' = {| an_x0 := x;
           an_phi := if an_accelerates A fr e then steffensen A (an_phi fr)
                     else an_phi fr;
           an_error := e;
           an_counter := if an_accelerates A fr e then 0
                         else if an_slow A fr e then an_counter fr + 1
                              else an_counter fr |}.
Proof.
  unfold ANewton_next, an_accelerates, an_slow.
  destruct (an_phi fr (an_x0 fr)) as [x'|[]]; try discriminate.
  intros H.
  destruct (3 <=? _)%Z eqn:Hc in H; injection H as <- <- <-; rewrite Hc;
    repeat split; reflexivity.
Qed.

Lemma ANewton_flags_counted (n : nat) :
  forall fr : ANewton_frame,
    map snd (ANewton_flags A n fr) =
    counted_rule (an_counter fr) (map fst (ANewton_flags A n fr)).
Proof.
  induction n as [|n IH]; intros fr; simpl; [reflexivity|].
  destruct (ANewton_next A fr) as [x e fr'| |err] eqn:Hnext; try reflexivity.
  destruct (ANewton_next_Yield fr fr' x e Hnext) as [_ [_ Hfr]].
  simpl. rewrite IH. rewrite Hfr. simpl. unfold an_accelerates.
  destruct (3 <=? _)%Z; reflexivity.
Qed.

(** C7, as amended. ANewton starts with the Newton map
    [phi(x) = x - f(x)/df(x)] and applies its current map at each step. A
    step is counted as slow by the test on the error reduction, and the map
    is replaced by its Steffensen form exactly at the step that brings the
    count of slow steps since the last replacement to 3, consecutive or not;
    the count then starts again. A [ZeroDivisionError] raised by the current
    map ends the sequence, without an exception. *)
Theorem ANewton_sequence (fr : ANewton_frame) :
  (forall (f : callable num) (xs : list num) (kw : kwargs num) (self : ANewton),
      ANewton_init A f xs kw = Ok self ->
      ANewton_start A self =
        {| an_x0 := ANewton_x0 self;
           an_phi := newton_map A f (match kw_df kw with
                                     | Some g => g
                                     | None => fun x => diff A f x None
                                     end);
           an_error := lit A 0; an_counter := 0 |}) /\
  (an_phi fr (an_x0 fr) = Raise ZeroDivisionError -> ANewton_next A fr = Stop) /\
  (forall x : num,
      an_phi fr (an_x0 fr) = Ok x ->
      let error := absv A (sub A (an_x0 fr) x) in
      ANewton_next A fr =
        Yield x error
          {| an_x0 := x;
             an_phi := if an_accelerates A fr error then steffensen A (an_phi fr)
                       else an_phi fr;
             an_error := error;
             an_counter := if an_accelerates A fr error then 0
                           else if an_slow A fr error then an_counter fr + 1
                                else an_counter fr |}) /\
  (forall n : nat,
      map snd (ANewton_flags A n fr) =
      counted_rule (an_counter fr) (map fst (ANewton_flags A n fr))).
Proof.
  split; [|split; [|split]].
  - intros f xs kw self Hinit. unfold ANewton_init in Hinit.
    destruct xs as [|a [|? ?]]; try discriminate Hinit.
    destruct (kw_verbose kw); simpl in Hinit; [|discriminate Hinit].
    injection Hinit as <-. reflexivity.
  - intros Hphi. unfold ANewton_next. rewrite Hphi. reflexivity.
  - intros x Hphi error. unfold ANewton_next, an_accelerates, an_slow.
    rewrite Hphi. fold error. destruct (3 <=? _)%Z; reflexivity.
  - intros n. apply ANewton_flags_counted.
Qed.

End Accelerated.

Lemma ANewton_sequence_witness :
  ANewton_next Exact.A Inputs.stairs_start =
    Yield (Inputs.int 4) (Inputs.int 4)
      {| an_x0 := Inputs.int 4; an_phi := an_phi Inputs.stairs_start;
         an_error := Inputs.int 4; an_counter := 0 |} /\
  ANewton_next Exact.A
    {| an_x0 := Inputs.int 11; an_phi := steffensen Exact.A (an_phi Inputs.stairs_start);
       an_error := Inputs.int 1; an_counter := 0 |} = Stop.
Proof.
  split.
  - exact (proj1 (proj2 (proj2 (ANewton_sequence Exact.A Inputs.stairs_start)))
             (Inputs.int 4) eq_refl).
  - refine (proj1 (proj2 (ANewton_sequence Exact.A _)) _).
    vm_compute. reflexivity.
Defined.

(** On the steps of lengths 4, 3, 2, 1, 1 the second, third and fifth are
    slow and the fourth is not: the fifth replaces the map, although the
    error reduction has not stalled for 3 consecutive steps. *)
Lemma acceleration_without_consecutive_stalls :
  map fst Inputs.stairs_flags = [false; true; true; false; true] /\
  map snd Inputs.stairs_flags = [false; false; false; false; true] /\
  map snd Inputs.stairs_flags <> consecutive_rule 0 (map fst Inputs.stairs_flags) /\
  exists ps fr,
    pull (ANewton_next Exact.A) 5 Inputs.stairs_start = Some (ps, fr) /\
    map fst ps = [Inputs.int 4; Inputs.int 7; Inputs.int 9; Inputs.int 10; Inputs.int 11] /\
    an_phi fr = steffensen Exact.A (an_phi Inputs.stairs_start).
Proof.
  split; [vm_compute; reflexivity|].
  split; [vm_compute; reflexivity|].
  split; [vm_compute; discriminate|].
  eexists. eexists. split; [reflexivity|]. split; reflexivity.
Qed.

(** ** The examples of the documentation

    The calls that the documentation of [findroot] shows with the
    Anderson-Bjork solver, at the standard precision of 53 bits: a root
    found, and a division by zero on the symmetric bracket of [x**2]. The
    tolerance that the documentation shows in the message of a validation
    error, [2.1684e-19], is [2**(-62)], the default at 20 more bits. *)

Example anderson_cube :
  findroot Exact.mp (fun _ => Inputs.call_anderson Inputs.cube (-1) 1) 53 =
    (53%Z, Ok (Inputs.int 0)).
Proof. vm_compute. reflexivity. Qed.

Example anderson_symmetric :
  findroot Exact.mp (fun _ => Inputs.call_anderson Inputs.square (-1) 1) 53 =
    (53%Z, Raise ZeroDivisionError).
Proof. vm_compute. reflexivity. Qed.

Example default_tolerance :
  findroot_tol (Exact.mp (53 + 20)) FT_convert_lossless None =
    Exact.Mpf (1 # 4611686018427387904).
Proof. vm_compute. reflexivity. Qed.

(** ** The multiplicity of a root *)



Section Multiplicity.

Context {num : Type} (A : Arith num).

Lemma multiplicity_loop_cons (f : callable num) (kw : gmap string (callable num))
    (root tol : num) (i : Z) (range : list Z) (i0 : option Z) :
  multiplicity_loop A f root tol (<["d0f" := f]> kw) (i :: range) i0 =
    (v <- derivative A f kw i root ;;
     if negb (ltb A (absv A v) tol) then Ok (Some i)
     else multiplicity_loop A f root tol (<["d0f" := f]> kw) range (Some i)).
Proof. reflexivity. Qed.



End Multiplicity.


(** The root 0 of [x**3] has multiplicity 3. *)
Example multiplicity_cube :
  multiplicity Exact.A Inputs.cube (Inputs.int 0) (Some (Exact.Mpf (1 # 1000)))
    (Some 4%Z) Inputs.cube_derivatives = Ok 3%Z.
Proof. vm_compute. reflexivity. Qed.

(** * Further properties *)

(** ** The loop of the driver, continued *)

Section Driver_continued.

Context {num : Type} (A : Arith num).

Lemma keeps_going_bound (tol : num) (maxsteps i : Z) (x e : num) :
  stops A tol maxsteps (i + 1) e = false -> (i + 1 < maxsteps)%Z.
Proof.
  unfold stops. intros H. apply orb_false_iff in H. destruct H as [_ H].
  apply Z.leb_gt in H. exact H.
Qed.

Lemma drive_sequence_ends {S : Type} (next : S -> step num S) (tol : num) (maxsteps : Z) :
  forall (ps : list (num * num)) (budget : nat) (fr fr' : S) (i : Z) (x0 : option num)
         (x e : num),
    pull next (length ps + 1) fr = Some ((ps ++ [(x, e)])%list, fr') ->
    next fr' = Stop ->
    keeps_going A tol maxsteps i ps = true ->
    (maxsteps - i - 1 <= Z.of_nat budget)%Z ->
    drive A next tol maxsteps budget fr i x0 = Ok (Some x).
Proof.
  induction ps as [|[x1 e1] ps IH]; intros budget fr fr' i x0 x e Hpull Hend Hgo Hb.
  - simpl in Hpull. destruct (next fr) as [x' e' fr1| |err] eqn:Hn; try discriminate.
    inversion Hpull; subst. clear Hpull.
    destruct budget; simpl; rewrite Hn;
      destruct (ltb A e tol || (maxsteps <=? i + 1)%Z); try reflexivity.
    destruct budget; simpl; rewrite Hend; reflexivity.
  - simpl in Hpull. destruct (next fr) as [x' e' fr1| |err] eqn:Hn; try discriminate.
    destruct (pull next (length ps + 1) fr1) as [[qs fr2]|] eqn:Hp; try discriminate.
    inversion Hpull; subst. clear Hpull.
    simpl in Hgo. apply andb_true_iff in Hgo. destruct Hgo as [Hns Hgo].
    apply negb_true_iff in Hns.
    pose proof (keeps_going_bound tol maxsteps i x1 e1 Hns) as Hlt.
    unfold stops in Hns.
    destruct budget as [|budget]; [simpl in Hb; lia|].
    simpl. rewrite Hn, Hns.
    apply (IH budget fr1 fr' (i + 1)%Z (Some x1) x e Hp Hend Hgo). lia.
Qed.

Lemma drive_sequence_raises {S : Type} (next : S -> step num S) (tol : num)
    (maxsteps : Z) (err : exn num) :
  forall (ps : list (num * num)) (budget : nat) (fr fr' : S) (i : Z) (x0 : option num),
    pull next (length ps) fr = Some (ps, fr') ->
    next fr' = Throw err ->
    keeps_going A tol maxsteps i ps = true ->
    (maxsteps - i - 1 <= Z.of_nat budget)%Z ->
    drive A next tol maxsteps budget fr i x0 = Raise err.
Proof.
  induction ps as [|[x1 e1] ps IH]; intros budget fr fr' i x0 Hpull Hend Hgo Hb.
  - simpl in Hpull. inversion Hpull; subst.
    destruct budget; simpl; rewrite Hend; reflexivity.
  - simpl in Hpull. destruct (next fr) as [x' e' fr1| |err'] eqn:Hn; try discriminate.
    destruct (pull next (length ps) fr1) as [[qs fr2]|] eqn:Hp; try discriminate.
    inversion Hpull; subst. clear Hpull.
    simpl in Hgo. apply andb_true_iff in Hgo. destruct Hgo as [Hns Hgo].
    apply negb_true_iff in Hns.
    pose proof (keeps_going_bound tol maxsteps i x1 e1 Hns) as Hlt.
    unfold stops in Hns.
    destruct budget as [|budget]; [simpl in Hb; lia|].
    simpl. rewrite Hn, Hns.
    apply (IH budget fr1 fr' (i + 1)%Z (Some x1) Hp Hend Hgo). lia.
Qed.

(** X1. When the solver's sequence ends after a pair and none of the pairs
    before it breaks the loop, the loop variable holds the [x] of that last
    pair, whether that pair breaks the loop or the sequence ends under it. *)
Theorem findroot_sequence_exhausted (a : findroot_args num) (xs : list num)
    (cls : solver_class num) (it : iterations num) (ps : list (num * num)) (x e : num)
    (fr : it_frame it) :
  let tol := findroot_tol A (arg_force_type a) (arg_tol a) in
  let maxsteps := findroot_maxsteps (findroot_kwargs A a) it in
  findroot_x0 A (arg_force_type a) (arg_x0 a) = Ok xs ->
  findroot_solver A (arg_solver a) = Ok cls ->
  cls (arg_f a) xs (findroot_kwargs A a) = Ok it ->
  pull (it_next it) (length ps + 1) (it_start it) = Some ((ps ++ [(x, e)])%list, fr) ->
  it_next it fr = Stop ->
  keeps_going A tol maxsteps 0 ps = true ->
  findroot_search A a = Ok (Some x) /\
  findroot_body A a = findroot_verify A (arg_verify a) (arg_f a) tol (Some x).
Proof.
  intros tol maxsteps Hx Hs Hc Hpull Hend Hgo.
  assert (Hsearch : findroot_search A a = Ok (Some x)).
  { rewrite (findroot_search_eq A a xs cls it Hx Hs Hc). unfold findroot_loop.
    apply (drive_sequence_ends (it_next it) tol maxsteps ps _ _ fr 0%Z
             (comprehension_x (arg_x0 a)) x e Hpull Hend Hgo). lia. }
  split; [exact Hsearch|]. unfold findroot_body. rewrite Hsearch. reflexivity.
Qed.

(** X2. An exception that leaves the solver's generator, after pairs none
    of which breaks the loop, leaves [findroot] as it is: the driver catches
    nothing. *)
Theorem findroot_propagates_exception (a : findroot_args num) (xs : list num)
    (cls : solver_class num) (it : iterations num) (ps : list (num * num))
    (fr : it_frame it) (err : exn num) :
  let tol := findroot_tol A (arg_force_type a) (arg_tol a) in
  let maxsteps := findroot_maxsteps (findroot_kwargs A a) it in
  findroot_x0 A (arg_force_type a) (arg_x0 a) = Ok xs ->
  findroot_solver A (arg_solver a) = Ok cls ->
  cls (arg_f a) xs (findroot_kwargs A a) = Ok it ->
  pull (it_next it) (length ps) (it_start it) = Some (ps, fr) ->
  it_next it fr = Throw err ->
  keeps_going A tol maxsteps 0 ps = true ->
  findroot_body A a = Raise err.
Proof.
  intros tol maxsteps Hx Hs Hc Hpull Hend Hgo.
  unfold findroot_body. rewrite (findroot_search_eq A a xs cls it Hx Hs Hc).
  unfold findroot_loop.
  rewrite (drive_sequence_raises (it_next it) tol maxsteps err ps _ _ fr 0%Z
             (comprehension_x (arg_x0 a)) Hpull Hend Hgo); [reflexivity|lia].
Qed.

End Driver_continued.

Lemma findroot_sequence_exhausted_witness :
  findroot_search Exact.A Inputs.call_linear_default = Ok (Some (Exact.Mpf (1 # 2))) /\
  findroot_body Exact.A Inputs.call_linear_default =
    findroot_verify Exact.A true Inputs.linear
      (findroot_tol Exact.A FT_convert_lossless None) (Some (Exact.Mpf (1 # 2))).
Proof.
  apply (findroot_sequence_exhausted Exact.A Inputs.call_linear_default
           [Exact.Mpf 0]
           (instantiate (Secant_init Exact.A) (Secant_iter Exact.A))
           (Secant_iter Exact.A
              {| Secant_f := Inputs.linear; Secant_x0 := Exact.Mpf 0;
                 Secant_x1 := Exact.Mpf (1 # 4) |})
           [(Exact.Mpf (1 # 2), Exact.Mpf (1 # 4))]
           (Exact.Mpf (1 # 2)) (Exact.Mpf (1 # 4))
           (Secant_loop (Exact.Mpf (1 # 2)) (Exact.Mpf (1 # 2)) (Exact.Mpf 0))).
  - reflexivity.
  - reflexivity.
  - reflexivity.
  - vm_compute. reflexivity.
  - vm_compute. reflexivity.
  - vm_compute. reflexivity.
Defined.

Lemma findroot_propagates_exception_witness :
  findroot_body Exact.A (Inputs.call_anderson Inputs.square (-1) 1) =
    Raise ZeroDivisionError.
Proof.
  apply (findroot_propagates_exception Exact.A
           (Inputs.call_anderson Inputs.square (-1) 1)
           [Inputs.int (-1); Inputs.int 1]
           (instantiate (Anderson Exact.A) (Illinois_iter Exact.A))
           (Illinois_iter Exact.A
              {| Illinois_a := Inputs.int (-1); Illinois_b := Inputs.int 1;
                 Illinois_f := Inputs.square;
                 Illinois_tol := findroot_tol Exact.A FT_convert_lossless None;
                 Illinois_verbose := false; Illinois_method := "anderson";
                 Illinois_getm := fun fz fb =>
                   t <- div Exact.A fz fb ;;
                   let m := sub Exact.A (lit Exact.A 1) t in
                   if ltb Exact.A (lit Exact.A 0) m then Ok m
                   else Ok (lit Exact.A (1 # 2)) |})
           [] Illinois_entry ZeroDivisionError).
  - reflexivity.
  - reflexivity.
  - reflexivity.
  - reflexivity.
  - vm_compute. reflexivity.
  - reflexivity.
Defined.

(** ** Where the sequences end *)

Ltac step_cases :=
  unfold bindS, bind, div;
  repeat match goal with
         | |- context [match ?m with Ok _ => _ | Raise _ => _ end] => destruct m
         | |- context [if ?c then _ else _] => destruct c
         end.

Section Endings.

Context {num : Type} (A : Arith num).

Lemma MNewton_init_fields (f : callable num) (x : num) (kw : kwargs num) (self : MNewton) :
  MNewton_init A f [x] kw = Ok self -> MNewton_f self = f /\ MNewton_x0 self = x.
Proof.
  unfold MNewton_init. destruct (kw_d2f kw); [destruct (kw_df kw)|]; simpl;
    intros H; try discriminate H; injection H as <-; split; reflexivity.
Qed.

Lemma MNewton_stops_at_zero (self : MNewton) (x v : num) :
  MNewton_f self x = Ok v -> is_zero A v = true -> MNewton_next A self x = Stop.
Proof.
  intros Hf Hz. unfold MNewton_next. rewrite Hf. simpl. rewrite Hz. reflexivity.
Qed.

(** X3. The sequence of MNewton ends exactly when [f(x)] is zero at the
    current iterate; every other step yields a pair or raises. *)
Theorem MNewton_ends_at_zero (self : MNewton) (x : num) :
  MNewton_next A self x = Stop <->
  exists v, MNewton_f self x = Ok v /\ is_zero A v = true.
Proof.
  unfold MNewton_next, div. split.
  - destruct (MNewton_f self x) as [v|e]; simpl; [|discriminate].
    destruct (is_zero A v) eqn:Hz; [intros _; exists v; split; [reflexivity|exact Hz]|].
    step_cases; discriminate.
  - intros [v [Hf Hz]]. fold (div A). apply (MNewton_stops_at_zero self x v Hf Hz).
Qed.

(** X4. [findroot] with the solver ['mnewton'] and an [x0] that is not a
    list or tuple, started at a point where [f] is exactly zero, fails with
    an unbound-local error: the sequence has no pair and nothing else has
    bound [x]. *)
Theorem findroot_mnewton_at_root (a : findroot_args num) (y x v : num) (self : MNewton) :
  arg_solver a = By_name "mnewton" ->
  arg_x0 a = Scalar y ->
  findroot_x0 A (arg_force_type a) (arg_x0 a) = Ok [x] ->
  MNewton_init A (arg_f a) [x] (findroot_kwargs A a) = Ok self ->
  arg_f a x = Ok v ->
  is_zero A v = true ->
  findroot_body A a = Raise (UnboundLocalError "x").
Proof.
  intros Hs Hy Hx Hinit Hf Hz.
  destruct (MNewton_init_fields _ _ _ _ Hinit) as [Hfield Hstart].
  assert (Hsolver : findroot_solver A (arg_solver a) =
                    Ok (instantiate (MNewton_init A) (MNewton_iter A))).
  { rewrite Hs. reflexivity. }
  assert (Hcls : instantiate (MNewton_init A) (MNewton_iter A) (arg_f a) [x]
                   (findroot_kwargs A a) = Ok (MNewton_iter A self)).
  { unfold instantiate. rewrite Hinit. reflexivity. }
  unfold findroot_body.
  rewrite (findroot_search_eq A a [x] _ _ Hx Hsolver Hcls).
  rewrite findroot_loop_Stop; [rewrite Hy; reflexivity|].
  simpl. rewrite Hstart. apply (MNewton_stops_at_zero self x v); [|exact Hz].
  rewrite Hfield. exact Hf.
Qed.

(** X5. Halley and Bisection have no way to end their sequence: a step
    yields a pair or raises. *)
Theorem Halley_Bisection_never_end :
  (forall (self : Halley) (x : num), Halley_next A self x <> Stop) /\
  (forall (self : Bisection) (fr : num * num * num), Bisection_next A self fr <> Stop).
Proof.
  split.
  - intros self x. unfold Halley_next. step_cases; discriminate.
  - intros self [[a b] l]. unfold Bisection_next. step_cases; discriminate.
Qed.

(** ** Bisection *)

Lemma Bisection_next_total (self : Bisection) (a b l : num) :
  (forall x, exists v, Bisection_f self x = Ok v) ->
  is_zero A (lit A 2) = false ->
  exists x a' b',
    Bisection_next A self (a, b, l) =
      Yield x (absv A (quot A l (lit A 2))) (a', b', quot A l (lit A 2)).
Proof.
  intros Hf H2. unfold Bisection_next.
  destruct (Hf (mul A (lit A (1 # 2)) (add A a b))) as [fm Hfm].
  destruct (Hf b) as [fb Hfb]. rewrite Hfm, Hfb. unfold bindS, div. rewrite H2.
  destruct (ltb A (mul A fm fb) (lit A 0)); eexists; eexists; eexists; reflexivity.
Qed.

(** X6. On a function that raises nothing Bisection yields as many pairs as
    are asked for, and its error estimates are the halvings of the length of
    the starting interval: they do not depend on the function. *)
Theorem Bisection_errors_are_halvings (self : Bisection) (n : nat) :
  (forall x, exists v, Bisection_f self x = Ok v) ->
  is_zero A (lit A 2) = false ->
  forall a b l : num,
    exists ps fr,
      pull (Bisection_next A self) n (a, b, l) = Some (ps, fr) /\
      map snd ps = halvings A l n.
Proof.
  intros Hf H2. induction n as [|n IH]; intros a b l.
  - exists [], (a, b, l). split; reflexivity.
  - destruct (Bisection_next_total self a b l Hf H2) as [x [a' [b' Hstep]]].
    destruct (IH a' b' (quot A l (lit A 2))) as [ps [fr [Hpull Herr]]].
    exists ((x, absv A (quot A l (lit A 2))) :: ps), fr.
    cbn [pull]. rewrite Hstep, Hpull. split; [reflexivity|].
    cbn [map snd halvings]. rewrite Herr. reflexivity.
Qed.

(** X7. Bisection moves the left end only on a negative product
    [f(m)*f(b)]. When [f] is exactly zero at the midpoint or at the right end
    the product is not negative and the right end moves to the midpoint, so
    that a root sitting at the right end leaves the interval. *)
Theorem Bisection_zero_product (self : Bisection) (a b l fm fb : num) :
  let m := mul A (lit A (1 # 2)) (add A a b) in
  (forall x y : num, is_zero A x = true \/ is_zero A y = true ->
                     is_zero A (mul A x y) = true) ->
  (forall z : num, is_zero A z = true -> ltb A z (lit A 0) = false) ->
  is_zero A (lit A 2) = false ->
  Bisection_f self m = Ok fm ->
  Bisection_f self b = Ok fb ->
  is_zero A fm = true \/ is_zero A fb = true ->
  Bisection_next A self (a, b, l) =
    Yield (quot A (add A a m) (lit A 2)) (absv A (quot A l (lit A 2)))
          (a, m, quot A l (lit A 2)).
Proof.
  intros m Hmul Hlt H2 Hfm Hfb Hzero. unfold Bisection_next. fold m.
  rewrite Hfm, Hfb. unfold bindS, div.
  rewrite (Hlt _ (Hmul fm fb Hzero)), H2. reflexivity.
Qed.

End Endings.

Lemma Exact_mul_zero (x y : Exact.value) :
  is_zero Exact.A x = true \/ is_zero Exact.A y = true ->
  is_zero Exact.A (mul Exact.A x y) = true.
Proof.
  simpl. intros H. apply Qeq_bool_iff. rewrite Exact_val_lift2, Qred_correct.
  destruct H as [H|H]; apply Qeq_bool_iff in H; rewrite H; ring.
Qed.

Lemma Exact_ltb_zero (z : Exact.value) :
  is_zero Exact.A z = true -> ltb Exact.A z (lit Exact.A 0) = false.
Proof.
  simpl. intros H. apply Qeq_bool_iff in H. apply negb_false_iff.
  apply Qle_bool_iff. rewrite H. apply Qle_refl.
Qed.

Lemma findroot_mnewton_at_root_witness :
  findroot_body Exact.A Inputs.call_mnewton_at_root = Raise (UnboundLocalError "x").
Proof.
  eapply (findroot_mnewton_at_root Exact.A Inputs.call_mnewton_at_root
            (Exact.Float 0) (Inputs.int 0) (Inputs.int 0)); reflexivity.
Defined.

Lemma Bisection_errors_are_halvings_witness :
  exists ps fr,
    pull (Bisection_next Exact.A Inputs.bisection_identity) 3
         (Inputs.int (-1), Inputs.int 1, Inputs.int 2) = Some (ps, fr) /\
    map snd ps = halvings Exact.A (Inputs.int 2) 3.
Proof.
  apply (Bisection_errors_are_halvings Exact.A Inputs.bisection_identity 3).
  - intros x. exists x. reflexivity.
  - reflexivity.
Defined.

Lemma Bisection_zero_product_witness :
  Bisection_next Exact.A Inputs.bisection_identity
    (Inputs.int (-1), Inputs.int 1, Inputs.int 2) =
  Yield (quot Exact.A (add Exact.A (Inputs.int (-1))
                           (mul Exact.A (lit Exact.A (1 # 2))
                                (add Exact.A (Inputs.int (-1)) (Inputs.int 1))))
              (lit Exact.A 2))
        (absv Exact.A (quot Exact.A (Inputs.int 2) (lit Exact.A 2)))
        (Inputs.int (-1),
         mul Exact.A (lit Exact.A (1 # 2)) (add Exact.A (Inputs.int (-1)) (Inputs.int 1)),
         quot Exact.A (Inputs.int 2) (lit Exact.A 2)).
Proof.
  apply (Bisection_zero_product Exact.A Inputs.bisection_identity
           (Inputs.int (-1)) (Inputs.int 1) (Inputs.int 2) (Inputs.int 0) (Inputs.int 1)).
  - exact Exact_mul_zero.
  - exact Exact_ltb_zero.
  - reflexivity.
  - reflexivity.
  - reflexivity.
  - left. reflexivity.
Defined.

(** ** Degenerate starting data *)

Section Degenerate.

Context {num : Type} (A : Arith num).

(** X8. On a constant function Muller, started on three points that differ
    from one another, ends its sequence before the first pair and raises
    nothing: all the divided differences are zero. *)
Theorem Muller_constant_ends (c x0 x1 x2 : num) (verbose : bool) :
  let self := {| Muller_x0 := x0; Muller_x1 := x1; Muller_x2 := x2;
                 Muller_f := fun _ => Ok c; Muller_verbose := verbose |} in
  is_zero A (sub A c c) = true ->
  (forall a b : num, is_zero A a = true -> is_zero A (quot A a b) = true) ->
  (forall a b : num, is_zero A a = true -> is_zero A b = true ->
                     is_zero A (add A a b) = true /\ is_zero A (sub A a b) = true) ->
  is_zero A (sub A x1 x2) = false ->
  is_zero A (sub A x0 x2) = false ->
  is_zero A (sub A x0 x1) = false ->
  Muller_next A self Muller_entry = Stop.
Proof.
  intros self Hcc Hquot Hsum H12 H02 H01.
  cbn [Muller_next self Muller_f Muller_x0 Muller_x1 Muller_x2 bindS].
  unfold Muller_body, div. rewrite H12, H02, H01. cbn [bindS].
  pose proof (Hquot _ (sub A x1 x2) Hcc) as Z12.
  pose proof (Hquot _ (sub A x0 x2) Hcc) as Z02.
  pose proof (Hquot _ (sub A x0 x1) Hcc) as Z01.
  destruct (Hsum _ _ Z12 Z02) as [Zadd _].
  destruct (Hsum _ _ Zadd Z01) as [_ Zw].
  destruct (Hsum _ _ Z01 Z12) as [_ Zd].
  rewrite Zw, (Hquot _ (sub A x0 x2) Zd). reflexivity.
Qed.

(** X9. When two of the three starting points of Muller coincide, its first
    step raises [ZeroDivisionError] in a divided difference; the division is
    not guarded. *)
Theorem Muller_repeated_points (self : Muller) (fx0 fx1 fx2 : num) :
  Muller_f self (Muller_x0 self) = Ok fx0 ->
  Muller_f self (Muller_x1 self) = Ok fx1 ->
  Muller_f self (Muller_x2 self) = Ok fx2 ->
  is_zero A (sub A (Muller_x1 self) (Muller_x2 self)) = true \/
  is_zero A (sub A (Muller_x0 self) (Muller_x2 self)) = true \/
  is_zero A (sub A (Muller_x0 self) (Muller_x1 self)) = true ->
  Muller_next A self Muller_entry = Throw ZeroDivisionError.
Proof.
  intros H0 H1 H2 Hrep. cbn [Muller_next]. rewrite H0, H1, H2. cbn [bindS].
  unfold Muller_body, div.
  destruct (is_zero A (sub A (Muller_x1 self) (Muller_x2 self))); [reflexivity|].
  destruct (is_zero A (sub A (Muller_x0 self) (Muller_x2 self))); [reflexivity|].
  destruct (is_zero A (sub A (Muller_x0 self) (Muller_x1 self))); [reflexivity|].
  destruct Hrep as [H|[H|H]]; discriminate H.
Qed.

(** X10. On an interval of length zero the Illinois family ends its
    sequence before the first pair. On an interval whose secant slope is
    zero it raises [ZeroDivisionError], where Secant ends silently. *)
Theorem Illinois_degenerate_interval (self : Illinois) (fa fb : num) :
  let l := sub A (Illinois_b self) (Illinois_a self) in
  Illinois_f self (Illinois_a self) = Ok fa ->
  Illinois_f self (Illinois_b self) = Ok fb ->
  (is_zero A l = true -> Illinois_next A self Illinois_entry = Stop) /\
  (is_zero A l = false -> is_zero A (quot A (sub A fb fa) l) = true ->
   Illinois_next A self Illinois_entry = Throw ZeroDivisionError).
Proof.
  intros l Ha Hb. cbn [Illinois_next]. rewrite Ha, Hb. cbn [bindS].
  unfold Illinois_body, div. fold l. split.
  - intros Hl. rewrite Hl. reflexivity.
  - intros Hl Hs. rewrite Hl. cbn [bindS]. rewrite Hs. reflexivity.
Qed.

End Degenerate.

Lemma Exact_sum_zero (a b : Exact.value) :
  is_zero Exact.A a = true -> is_zero Exact.A b = true ->
  is_zero Exact.A (add Exact.A a b) = true /\ is_zero Exact.A (sub Exact.A a b) = true.
Proof.
  simpl. intros Ha Hb. apply Qeq_bool_iff in Ha. apply Qeq_bool_iff in Hb.
  split; apply Qeq_bool_iff; rewrite Exact_val_lift2, Qred_correct, Ha, Hb; ring.
Qed.

Lemma Muller_constant_ends_witness :
  Muller_next Exact.A (Inputs.muller Inputs.five 2) Muller_entry = Stop.
Proof.
  apply (Muller_constant_ends Exact.A (Inputs.int 5) (Inputs.int 0) (Inputs.int 1)
           (Inputs.int 2) false).
  - reflexivity.
  - exact Exact_quot_zero.
  - exact Exact_sum_zero.
  - reflexivity.
  - reflexivity.
  - reflexivity.
Defined.

Lemma Muller_repeated_points_witness :
  Muller_next Exact.A (Inputs.muller Inputs.linear 1) Muller_entry =
    Throw ZeroDivisionError.
Proof.
  apply (Muller_repeated_points Exact.A (Inputs.muller Inputs.linear 1)
           (Inputs.int (-1)) (Inputs.int 1) (Inputs.int 1)).
  - reflexivity.
  - reflexivity.
  - reflexivity.
  - left. reflexivity.
Defined.

Lemma Illinois_degenerate_interval_witness :
  Illinois_next Exact.A (Inputs.illinois_square 1 1) Illinois_entry = Stop /\
  Illinois_next Exact.A (Inputs.illinois_square (-1) 1) Illinois_entry =
    Throw ZeroDivisionError.
Proof.
  split.
  - apply (proj1 (Illinois_degenerate_interval Exact.A (Inputs.illinois_square 1 1)
                    (Inputs.int 1) (Inputs.int 1) eq_refl eq_refl)).
    reflexivity.
  - apply (proj2 (Illinois_degenerate_interval Exact.A (Inputs.illinois_square (-1) 1)
                    (Inputs.int 1) (Inputs.int 1) eq_refl eq_refl)); reflexivity.
Defined.

(** ** Steffensen's transform *)

Section Steffensen.

Context {num : Type} (A : Arith num).

(** X11. At a fixed point of [f], where [f(f(x)) - 2*f(x) + x] is zero, the
    map [steffensen(f)] raises [ZeroDivisionError]; ANewton, once it runs on
    such a map, ends its sequence there instead of yielding the fixed point
    again. An exception of [f] leaves [steffensen(f)] as it is. *)
Theorem steffensen_at_fixed_point (f : callable num) (x : num) :
  f x = Ok x ->
  is_zero A (add A (sub A x (mul A (lit A 2) x)) x) = true ->
  steffensen A f x = Raise ZeroDivisionError /\
  (forall fr : ANewton_frame,
      an_phi fr = steffensen A f -> an_x0 fr = x -> ANewton_next A fr = Stop) /\
  (forall (y : num) (err : exn num), f y = Raise err -> steffensen A f y = Raise err).
Proof.
  intros Hfix Hzero.
  assert (Hs : steffensen A f x = Raise ZeroDivisionError).
  { unfold steffensen. rewrite Hfix. cbn [bind]. rewrite Hfix. cbn [bind].
    unfold div. rewrite Hzero. reflexivity. }
  split; [exact Hs|]. split.
  - intros fr Hphi Hx. unfold ANewton_next. rewrite Hphi, Hx, Hs. reflexivity.
  - intros y err Hy. unfold steffensen. rewrite Hy. reflexivity.
Qed.

(** X12. The counter of slow steps of ANewton stays among 0, 1 and 2 between
    the steps. *)
Theorem ANewton_counter_bounded (n : nat) :
  forall (fr fr' : ANewton_frame) (ps : list (num * num)),
    (0 <= an_counter fr < 3)%Z ->
    pull (ANewton_next A) n fr = Some (ps, fr') ->
    (0 <= an_counter fr' < 3)%Z.
Proof.
  induction n as [|n IH]; intros fr fr' ps Hc Hpull; simpl in Hpull.
  - inversion Hpull; subst. exact Hc.
  - destruct (ANewton_next A fr) as [x e fr1| |err] eqn:Hnext; try discriminate.
    destruct (pull (ANewton_next A) n fr1) as [[qs fr2]|] eqn:Hp; try discriminate.
    inversion Hpull; subst. clear Hpull.
    apply (IH fr1 fr' qs); [|exact Hp].
    destruct (ANewton_next_Yield A fr fr1 x e Hnext) as [_ [_ Hfr]].
    rewrite Hfr. cbn [an_counter]. unfold an_accelerates.
    destruct (an_slow A fr e);
      destruct (Z.leb_spec 3 (an_counter fr + 1)), (Z.leb_spec 3 (an_counter fr)); lia.
Qed.

(** ** The frames of Secant *)

Lemma Secant_body_frame (f : callable num) (x0 x1 f0 x e : num) (fr : Secant_frame) :
  Secant_body A f x0 x1 f0 = Yield x e fr ->
  Secant_frame_ok f (Some x) fr /\ e = absv A (sub A x1 x0).
Proof.
  unfold Secant_body. destruct (f x1) as [f1|err] eqn:Hf1; cbn [bindS]; [|discriminate].
  destruct (is_zero A (sub A x1 x0)); [discriminate|].
  destruct (div A (sub A f1 f0) (sub A x1 x0)) as [s|err]; cbn [bindS]; [|discriminate].
  destruct (is_zero A s); [discriminate|].
  destruct (div A f1 s) as [q|err]; cbn [bindS]; [|discriminate].
  intros H. injection H as <- <- <-. split; [|reflexivity].
  split; [exact Hf1|reflexivity].
Qed.

Lemma Secant_next_frame (self : Secant) (fr fr' : Secant_frame) (lst : option num)
    (x e : num) :
  Secant_frame_ok (Secant_f self) lst fr ->
  Secant_next A self fr = Yield x e fr' ->
  Secant_frame_ok (Secant_f self) (Some x) fr'.
Proof.
  intros _ Hnext. destruct fr as [|x0 x1 f0]; cbn [Secant_next] in Hnext.
  - destruct (Secant_f self (Secant_x0 self)) as [f0|err]; cbn [bindS] in Hnext;
      [|discriminate]. apply (Secant_body_frame _ _ _ _ _ _ _ Hnext).
  - apply (Secant_body_frame _ _ _ _ _ _ _ Hnext).
Qed.

(** X13. In every frame that Secant reaches after its first pair, [x1] is
    the approximation yielded last and [f0] is the value of [f] at [x0]: a
    step evaluates [f] once, at [x1], and its error estimate is the distance
    [abs(x1 - x0)] of the two iterates it started from. *)
Theorem Secant_frames (self : Secant) (n : nat) (ps : list (num * num))
    (fr : Secant_frame) :
  pull (Secant_next A self) n Secant_entry = Some (ps, fr) ->
  Secant_frame_ok (Secant_f self) (last_x ps) fr /\
  (forall x0 x1 f0 x e fr',
      fr = Secant_loop x0 x1 f0 ->
      Secant_next A self fr = Yield x e fr' ->
      e = absv A (sub A x1 x0)).
Proof.
  intros Hpull. split.
  - assert (Hgen : forall n fr0 lst ps fr,
               Secant_frame_ok (Secant_f self) lst fr0 ->
               pull (Secant_next A self) n fr0 = Some (ps, fr) ->
               Secant_frame_ok (Secant_f self)
                 (match last ps with Some p => Some (fst p) | None => lst end) fr).
    { clear. induction n as [|n IH]; intros fr0 lst ps fr Hok Hpull; simpl in Hpull.
      - inversion Hpull; subst. exact Hok.
      - destruct (Secant_next A self fr0) as [x e fr1| |err] eqn:Hnext; try discriminate.
        destruct (pull (Secant_next A self) n fr1) as [[qs fr2]|] eqn:Hp;
          try discriminate.
        inversion Hpull; subst. clear Hpull.
        pose proof (IH fr1 (Some x) qs fr
                      (Secant_next_frame self fr0 fr1 lst x e Hok Hnext) Hp) as Hind.
        destruct qs as [|q qs]; [exact Hind|].
        rewrite last_cons. destruct (last (q :: qs)); exact Hind. }
    pose proof (Hgen n Secant_entry None ps fr eq_refl Hpull) as H.
    unfold last_x. destruct (last ps); exact H.
  - intros x0 x1 f0 x e fr' -> Hnext. cbn [Secant_next] in Hnext.
    apply (Secant_body_frame _ _ _ _ _ _ _ Hnext).
Qed.

End Steffensen.

Lemma steffensen_at_fixed_point_witness :
  steffensen Exact.A Inputs.half (Inputs.int 0) = Raise ZeroDivisionError.
Proof.
  apply (proj1 (steffensen_at_fixed_point Exact.A Inputs.half (Inputs.int 0)
                  eq_refl eq_refl)).
Defined.

Lemma ANewton_counter_bounded_witness :
  (0 <= an_counter {| an_x0 := Inputs.int 9; an_phi := an_phi Inputs.stairs_start;
                      an_error := Inputs.int 2; an_counter := 2 |} < 3)%Z.
Proof.
  apply (ANewton_counter_bounded Exact.A 3 Inputs.stairs_start _
           [(Inputs.int 4, Inputs.int 4); (Inputs.int 7, Inputs.int 3);
            (Inputs.int 9, Inputs.int 2)]).
  - simpl. lia.
  - reflexivity.
Defined.

Lemma Secant_frames_witness :
  Secant_frame_ok Inputs.linear (Some (Exact.Mpf (1 # 2)))
    (Secant_loop (Exact.Mpf (1 # 4)) (Exact.Mpf (1 # 2)) (Exact.Mpf (-1 # 2))).
Proof.
  exact (proj1 (Secant_frames Exact.A
                  {| Secant_f := Inputs.linear; Secant_x0 := Exact.Mpf 0;
                     Secant_x1 := Exact.Mpf (1 # 4) |} 1
                  [(Exact.Mpf (1 # 2), Exact.Mpf (1 # 4))]
                  (Secant_loop (Exact.Mpf (1 # 4)) (Exact.Mpf (1 # 2)) (Exact.Mpf (-1 # 2)))
                  eq_refl)).
Defined.

(** ** Construction through the driver *)

Section Construction_continued.

Context {num : Type} (A : Arith num).

Lemma findroot_x0_length (ft : force_type_arg num) (x0 : x0_arg num) (xs : list num) :
  findroot_x0 A ft x0 = Ok xs -> length xs = supplied x0.
Proof.
  destruct x0 as [l|x]; simpl.
  - apply mapM_length.
  - destruct (findroot_force_type A ft x); simpl; intros H; [|discriminate H].
    injection H as <-. reflexivity.
Qed.

Ltac right_length xs H :=
  destruct xs as [|? [|? [|? [|? ?]]]]; simpl in H; try discriminate H.

(** X14. Through [findroot] a solver named by one of the ten aliases and
    given a number of points it accepts is always constructed, with its own
    [maxsteps] attribute, provided that a [method] keyword, if any, is known
    and that a [d2f] keyword comes with a [df] or [d1f] keyword: the keys
    [tol] and [verbose] that constructors read are always set by the
    driver. *)
Theorem construction_through_findroot (a : findroot_args num) (name : string)
    (cls : solver_class num) (xs : list num) :
  dict_get (str2solver A) name = Some cls ->
  accepts name (length xs) = true ->
  (kw_d2f (arg_kwargs a) = None \/ kw_df (findroot_kwargs A a) <> None) ->
  match kw_method (arg_kwargs a) with
  | Some m => known_method m = true
  | None => True
  end ->
  exists it, cls (arg_f a) xs (findroot_kwargs A a) = Ok it /\
             dict_get default_maxsteps name = Some (it_maxsteps it).
Proof.
  unfold accepts, str2solver, cardinalities, default_maxsteps. cbn [dict_get].
  intros Hc Hn Hd2f Hm.
  assert (Hgetm : exists getm,
             _getm A (match kw_method (arg_kwargs a) with
                      | Some m => m
                      | None => "illinois"
                      end) = Ok getm).
  { destruct (kw_method (arg_kwargs a)) as [m|]; [|eexists; reflexivity].
    unfold known_method in Hm. unfold _getm.
    destruct (String.eqb m "illinois"); [eexists; reflexivity|].
    destruct (String.eqb m "pegasus"); [eexists; reflexivity|].
    destruct (String.eqb m "anderson"); [eexists; reflexivity|discriminate Hm]. }
  assert (Hd2f' : exists d2f,
             match kw_d2f (arg_kwargs a) return res num (callable num) with
             | None => Ok (fun x : num =>
                             diff A (match kw_df (findroot_kwargs A a) with
                                     | None => fun x => diff A (arg_f a) x None
                                     | Some g => g
                                     end) x None)
             | Some _ => getitem "df" (kw_df (findroot_kwargs A a))
             end = Ok d2f).
  { destruct (kw_d2f (arg_kwargs a)); [|eexists; reflexivity].
    destruct Hd2f as [Hd2f|Hd2f]; [discriminate Hd2f|].
    destruct (kw_df (findroot_kwargs A a)); [eexists; reflexivity|].
    exfalso. apply Hd2f. reflexivity. }
  destruct Hgetm as [getm Hgetm]. destruct Hd2f' as [d2f Hd2f'].
  revert Hc Hn.
  repeat (destruct (String.eqb _ name);
          [ intros Hc Hn; injection Hc as <-; right_length xs Hn;
            unfold instantiate, Pegasus, Anderson, Muller_init, MNewton_init,
              Halley_init, Illinois_init, Ridder_init, ANewton_init;
            cbn [findroot_kwargs set_method kw_tol kw_verbose kw_d2f kw_method
                 getitem bind Muller_points];
            try rewrite Hd2f'; try rewrite Hgetm; cbn [bind];
            eexists; split; reflexivity | ]).
  intros Hc. discriminate Hc.
Qed.

(** X15. Built without the driver and without a [verbose] keyword, the
    constructors of Muller, Ridder and ANewton raise [KeyError] on
    ['verbose'], and that of Illinois on ['tol'], or on ['verbose'] when
    [tol] is given; the number of points is checked first. *)
Theorem constructors_read_keywords (f : callable num) (xs : list num) (kw : kwargs num) :
  kw_verbose kw = None ->
  (accepts "muller" (length xs) = true ->
   Muller_init A f xs kw = Raise (KeyError "verbose")) /\
  (accepts "ridder" (length xs) = true ->
   Ridder_init f xs kw = Raise (KeyError "verbose")) /\
  (accepts "anewton" (length xs) = true ->
   ANewton_init A f xs kw = Raise (KeyError "verbose")) /\
  (accepts "illinois" (length xs) = true ->
   Illinois_init A f xs kw =
     Raise (KeyError (match kw_tol kw with Some _ => "verbose" | None => "tol" end))).
Proof.
  intros Hv. repeat split; intros Hn; right_length xs Hn;
    unfold Muller_init, Ridder_init, ANewton_init, Illinois_init;
    cbn [Muller_points bind]; rewrite Hv; try reflexivity.
  destruct (kw_tol kw); reflexivity.
Qed.

(** X16. The solver receives as many points as the call supplies, one for
    a scalar [x0]; so a named solver that does not accept that number makes
    [findroot] raise [ValueError] as soon as the coercion of the points has
    succeeded. *)
Theorem findroot_counts_supplied_points (a : findroot_args num) (name : string)
    (cls : solver_class num) (xs : list num) :
  arg_solver a = By_name name ->
  dict_get (str2solver A) name = Some cls ->
  findroot_x0 A (arg_force_type a) (arg_x0 a) = Ok xs ->
  accepts name (supplied (arg_x0 a)) = false ->
  length xs = supplied (arg_x0 a) /\
  exists msg, findroot_body A a = Raise (ValueError msg).
Proof.
  intros Hs Hd Hx Hn.
  pose proof (findroot_x0_length _ _ _ Hx) as Hlen. split; [exact Hlen|].
  rewrite <- Hlen in Hn.
  destruct (constructor_checks_cardinality A name cls (arg_f a) xs
              (findroot_kwargs A a) Hd Hn) as [msg Hm].
  assert (Hsolver : findroot_solver A (arg_solver a) = Ok cls).
  { rewrite Hs. unfold findroot_solver. rewrite Hd. reflexivity. }
  exists msg. unfold findroot_body, findroot_search.
  rewrite Hx. cbn [bind]. rewrite Hsolver. cbn [bind]. rewrite Hm. reflexivity.
Qed.

End Construction_continued.

Lemma construction_through_findroot_witness :
  exists it,
    instantiate (Anderson Exact.A) (Illinois_iter Exact.A) Inputs.square
      [Inputs.int (-1); Inputs.int 1]
      (findroot_kwargs Exact.A (Inputs.call_anderson Inputs.square (-1) 1)) = Ok it /\
    dict_get default_maxsteps "anderson" = Some (it_maxsteps it).
Proof.
  apply (construction_through_findroot Exact.A
           (Inputs.call_anderson Inputs.square (-1) 1) "anderson"
           (instantiate (Anderson Exact.A) (Illinois_iter Exact.A))
           [Inputs.int (-1); Inputs.int 1]).
  - reflexivity.
  - reflexivity.
  - left. reflexivity.
  - exact I.
Defined.

Lemma constructors_read_keywords_witness :
  Muller_init Exact.A Inputs.linear [Inputs.int 0] no_kwargs = Raise (KeyError "verbose").
Proof.
  apply (proj1 (constructors_read_keywords Exact.A Inputs.linear [Inputs.int 0]
                  no_kwargs eq_refl)).
  reflexivity.
Defined.

Lemma findroot_counts_supplied_points_witness :
  length [Inputs.int 0] = supplied (arg_x0 Inputs.call_bisect_scalar) /\
  exists msg, findroot_body Exact.A Inputs.call_bisect_scalar = Raise (ValueError msg).
Proof.
  apply (findroot_counts_supplied_points Exact.A Inputs.call_bisect_scalar "bisect"
           (instantiate Bisection_init (Bisection_iter Exact.A)) [Inputs.int 0]);
    reflexivity.
Defined.

(** ** The scaling factors and the derivative keywords *)

Section Keywords.

Context {num : Type} (A : Arith num).

(** X17. [_getm] knows three methods and raises [ValueError], with the
    name in the message, on any other. The factor of the Anderson-Bjork
    method is positive or the constant 0.5, and it raises
    [ZeroDivisionError] exactly when [f(b)] is zero; the aliases [Pegasus]
    and [Anderson] replace whatever [method] the caller passes. *)
Theorem getm_methods (method : string) (f : callable num) (xs : list num)
    (kw : kwargs num) :
  (known_method method = false ->
   _getm A method = Raise (ValueError (Format "method '%s' not recognized"
                                              [ArgStr method]))) /\
  (known_method method = true -> exists getm, _getm A method = Ok getm) /\
  (forall getm fz fb,
      _getm A "anderson" = Ok getm ->
      (getm fz fb = Raise ZeroDivisionError <-> is_zero A fb = true) /\
      (forall m, getm fz fb = Ok m ->
                 ltb A (lit A 0) m = true \/ m = lit A (1 # 2))) /\
  (forall self, Pegasus A f xs kw = Ok self -> Illinois_method self = "pegasus") /\
  (forall self, Anderson A f xs kw = Ok self -> Illinois_method self = "anderson").
Proof.
  split; [|split; [|split; [|split]]].
  - unfold known_method, _getm. intros H.
    destruct (String.eqb method "illinois"); [discriminate H|].
    destruct (String.eqb method "pegasus"); [discriminate H|].
    destruct (String.eqb method "anderson"); [discriminate H|]. reflexivity.
  - unfold known_method, _getm. intros H.
    destruct (String.eqb method "illinois"); [eexists; reflexivity|].
    destruct (String.eqb method "pegasus"); [eexists; reflexivity|].
    destruct (String.eqb method "anderson"); [eexists; reflexivity|discriminate H].
  - intros getm fz fb Hg. cbv [_getm] in Hg.
    change (String.eqb "anderson" "illinois") with false in Hg.
    change (String.eqb "anderson" "pegasus") with false in Hg.
    change (String.eqb "anderson" "anderson") with true in Hg.
    injection Hg as <-. unfold div. split.
    + destruct (is_zero A fb); cbn [bind]; [split; reflexivity|].
      destruct (ltb A _ _); split; discriminate.
    + intros m. destruct (is_zero A fb); cbn [bind]; [discriminate|].
      destruct (ltb A _ _) eqn:Hlt; intros H; injection H as <-;
        [left; exact Hlt|right; reflexivity].
  - intros self. unfold Pegasus, Illinois_init.
    destruct xs as [|? [|? [|? ?]]]; try discriminate.
    cbn [set_method kw_method kw_tol kw_verbose].
    destruct (kw_tol kw), (kw_verbose kw); cbn [getitem bind]; try discriminate.
    destruct (_getm A "pegasus"); cbn [bind]; [|discriminate].
    intros H. injection H as <-. reflexivity.
  - intros self. unfold Anderson, Illinois_init.
    destruct xs as [|? [|? [|? ?]]]; try discriminate.
    cbn [set_method kw_method kw_tol kw_verbose].
    destruct (kw_tol kw), (kw_verbose kw); cbn [getitem bind]; try discriminate.
    destruct (_getm A "anderson"); cbn [bind]; [|discriminate].
    intros H. injection H as <-. reflexivity.
Qed.

(** X18. A [d1f] keyword passed to [findroot] takes the place of the [df]
    keyword: the Newton solvers are built on it, whatever [df] is. *)
Theorem d1f_replaces_df (a : findroot_args num) (g : callable num) (x : num) :
  kw_d1f (arg_kwargs a) = Some g ->
  kw_df (findroot_kwargs A a) = Some g /\
  ANewton_init A (arg_f a) [x] (findroot_kwargs A a) =
    Ok {| ANewton_x0 := x; ANewton_f := arg_f a; ANewton_df := g;
          ANewton_phi := newton_map A (arg_f a) g;
          ANewton_verbose := arg_verbose a |} /\
  (kw_d2f (arg_kwargs a) = None ->
   MNewton_init A (arg_f a) [x] (findroot_kwargs A a) =
     Ok {| MNewton_x0 := x; MNewton_f := arg_f a; MNewton_df := g;
           MNewton_d2f := fun y => diff A g y None |} /\
   Halley_init A (arg_f a) [x] (findroot_kwargs A a) =
     Ok {| Halley_x0 := x; Halley_f := arg_f a; Halley_df := g;
           Halley_d2f := fun y => diff A g y None |}).
Proof.
  intros Hd1f.
  assert (Hdf : kw_df (findroot_kwargs A a) = Some g).
  { cbn [findroot_kwargs kw_df]. rewrite Hd1f. reflexivity. }
  split; [exact Hdf|]. split.
  - unfold ANewton_init. rewrite Hdf. reflexivity.
  - intros Hd2f. unfold MNewton_init, Halley_init. rewrite Hdf.
    cbn [findroot_kwargs kw_d2f]. rewrite Hd2f. split; reflexivity.
Qed.

End Keywords.

Lemma getm_methods_witness :
  _getm Exact.A "brent" =
    Raise (ValueError (Format "method '%s' not recognized" [ArgStr "brent"])) /\
  exists getm, _getm Exact.A "pegasus" = Ok getm.
Proof.
  destruct (getm_methods Exact.A "brent" Inputs.linear [] no_kwargs) as [Hunknown _].
  destruct (getm_methods Exact.A "pegasus" Inputs.linear [] no_kwargs) as [_ [Hknown _]].
  split; [apply Hunknown|apply Hknown]; reflexivity.
Defined.

Lemma d1f_replaces_df_witness :
  kw_df (findroot_kwargs Exact.A Inputs.call_d1f) = Some Inputs.square'.
Proof.
  apply (proj1 (d1f_replaces_df Exact.A Inputs.call_d1f Inputs.square' (Inputs.int 1)
                  eq_refl)).
Defined.

(** ** The multiplicity of a root, continued *)

Section Multiplicity_continued.

Context {num : Type} (A : Arith num).

Lemma multiplicity_loop_raises (f : callable num) (kw : gmap string (callable num))
    (root tol : num) (j : Z) (err : exn num) :
  derivative A f kw j root = Raise err ->
  forall (n s : nat) (i0 : option Z),
    (Z.of_nat s <= j < Z.of_nat (s + n))%Z ->
    (forall i : Z, (Z.of_nat s <= i < j)%Z -> below A f kw root tol i = Ok true) ->
    multiplicity_loop A f root tol (<["d0f" := f]> kw) (map Z.of_nat (seq s n)) i0 =
      Raise err.
Proof.
  intros Herr. induction n as [|n IH]; intros s i0 Hj Hbelow; [lia|].
  cbn [seq map]. rewrite multiplicity_loop_cons.
  destruct (Z.eq_dec j (Z.of_nat s)) as [Heq|Hne].
  - rewrite <- Heq, Herr. reflexivity.
  - pose proof (Hbelow (Z.of_nat s) ltac:(lia)) as Hs. unfold below in Hs.
    destruct (derivative A f kw (Z.of_nat s) root) as [v|e]; cbn [bind] in Hs |- *;
      [|discriminate Hs].
    injection Hs as Hs. rewrite Hs. cbn [negb].
    apply IH; [lia|]. intros i Hi. apply Hbelow. lia.
Qed.

(** X19. With a [maxsteps] that is not positive, [multiplicity] evaluates
    nothing and fails with an unbound-local error on its loop variable. *)
Theorem multiplicity_without_steps (f : callable num) (root : num) (tol : option num)
    (maxsteps : Z) (kw : gmap string (callable num)) :
  (maxsteps <= 0)%Z ->
  multiplicity A f root tol (Some maxsteps) kw = Raise (UnboundLocalError "i").
Proof.
  intros Hm. unfold multiplicity, xrange.
  replace (Z.to_nat maxsteps) with 0%nat by lia. reflexivity.
Qed.

(** X20. A [d0f] keyword passed to [multiplicity] is never used: the
    function [f] takes its place. *)
Theorem multiplicity_ignores_d0f (f g : callable num) (root : num) (tol : option num)
    (maxsteps : option Z) (kw : gmap string (callable num)) :
  multiplicity A f root tol maxsteps (<["d0f" := g]> kw) =
  multiplicity A f root tol maxsteps kw.
Proof. unfold multiplicity. rewrite insert_insert_eq. reflexivity. Qed.

(** X21. An exception raised by the derivative of some order below
    [maxsteps], when the derivatives of all lower orders are below [tol],
    leaves [multiplicity] as it is. *)
Theorem multiplicity_propagates_exception (f : callable num)
    (kw : gmap string (callable num)) (root tol : num) (maxsteps j : Z)
    (err : exn num) :
  (0 <= j < maxsteps)%Z ->
  (forall i : Z, (0 <= i < j)%Z -> below A f kw root tol i = Ok true) ->
  derivative A f kw j root = Raise err ->
  multiplicity A f root (Some tol) (Some maxsteps) kw = Raise err.
Proof.
  intros Hj Hbelow Herr. unfold multiplicity, xrange.
  rewrite (multiplicity_loop_raises f kw root tol j err Herr (Z.to_nat maxsteps) 0 None).
  - reflexivity.
  - lia.
  - intros i Hi. apply Hbelow. lia.
Qed.

End Multiplicity_continued.

Lemma multiplicity_without_steps_witness :
  multiplicity Exact.A Inputs.cube (Inputs.int 0) None (Some 0%Z) ∅ =
    Raise (UnboundLocalError "i").
Proof.
  apply (multiplicity_without_steps Exact.A Inputs.cube (Inputs.int 0) None 0 ∅). lia.
Defined.

Lemma multiplicity_propagates_exception_witness :
  multiplicity Exact.A Inputs.cube (Inputs.int 0) (Some (Exact.Mpf (1 # 1000)))
    (Some 4%Z) Inputs.broken_derivative = Raise ZeroDivisionError.
Proof.
  apply (multiplicity_propagates_exception Exact.A Inputs.cube Inputs.broken_derivative
           (Inputs.int 0) (Exact.Mpf (1 # 1000)) 4 1 ZeroDivisionError).
  - lia.
  - intros i Hi. assert (Hi0 : i = 0%Z) by lia. rewrite Hi0. vm_compute. reflexivity.
  - vm_compute. reflexivity.
Defined.

(** ** What the end of a bracketing sequence tells *)

Lemma pull_invariant {num S : Type} (next : S -> step num S)
    (Inv : option num -> S -> Prop) :
  (forall lst fr x e fr', Inv lst fr -> next fr = Yield x e fr' -> Inv (Some x) fr') ->
  forall (n : nat) (fr0 : S) (ps : list (num * num)) (fr : S),
    Inv None fr0 ->
    pull next n fr0 = Some (ps, fr) ->
    Inv (option_map fst (last ps)) fr.
Proof.
  intros Hstep.
  assert (Hgen : forall n fr0 lst ps fr,
             Inv lst fr0 -> pull next n fr0 = Some (ps, fr) ->
             Inv (match last ps with Some p => Some (fst p) | None => lst end) fr).
  { induction n as [|n IH]; intros fr0 lst ps fr Hok Hpull; simpl in Hpull.
    - inversion Hpull; subst. exact Hok.
    - destruct (next fr0) as [x e fr1| |err] eqn:Hnext; try discriminate.
      destruct (pull next n fr1) as [[qs fr2]|] eqn:Hp; try discriminate.
      inversion Hpull; subst. clear Hpull.
      pose proof (IH fr1 (Some x) qs fr (Hstep lst fr0 x e fr1 Hok Hnext) Hp) as Hind.
      destruct qs as [|q qs]; [exact Hind|].
      rewrite last_cons. destruct (last (q :: qs)); exact Hind. }
  intros n fr0 ps fr H0 Hpull. pose proof (Hgen n fr0 None ps fr H0 Hpull) as H.
  destruct (last ps); exact H.
Qed.

Section Bracketing.

Context {num : Type} (A : Arith num).

Lemma Ridder_body_frame (self : Ridder) (x1 fx1 x2 fx2 x e : num) (fr : Ridder_frame) :
  Ridder_body A self x1 fx1 x2 fx2 = Yield x e fr -> Ridder_frame_ok A self (Some x) fr.
Proof.
  unfold Ridder_body.
  destruct (Ridder_f self _) as [fx3|?]; cbn [bindS]; [|discriminate].
  destruct (div A _ _) as [q|?]; cbn [bindS]; [|discriminate].
  destruct (Ridder_f self _) as [fx4|?] eqn:H4; cbn [bindS]; [|discriminate].
  destruct (ltb A (absv A fx4) (Ridder_tol self)) eqn:Hlt.
  - intros H. injection H as <- <- <-. eexists. eexists.
    split; [reflexivity|]. split; [exact H4|exact Hlt].
  - destruct (ltb A (mul A fx4 fx2) (lit A 0));
      (destruct (div A _ _); cbn [bindS]; [|discriminate]);
      intros H; injection H as <- <- <-; exact I.
Qed.

Lemma Ridder_body_not_Stop (self : Ridder) (x1 fx1 x2 fx2 : num) :
  Ridder_body A self x1 fx1 x2 fx2 <> Stop.
Proof. unfold Ridder_body. step_cases; discriminate. Qed.

(** X22. The sequence of Ridder ends only through its early exit: when it
    ends, it has yielded at least one pair, and [f] at the approximation of
    the last pair has a magnitude below the solver's [tol]. *)
Theorem Ridder_ends_below_tol (self : Ridder) (n : nat) (ps : list (num * num))
    (fr : Ridder_frame) :
  pull (Ridder_next A self) n Ridder_entry = Some (ps, fr) ->
  Ridder_next A self fr = Stop ->
  cancelled A (Ridder_f self) (Ridder_tol self) (last_x ps).
Proof.
  intros Hpull Hstop.
  assert (Hinv : Ridder_frame_ok A self (last_x ps) fr).
  { apply (pull_invariant (Ridder_next A self) (Ridder_frame_ok A self)) with (n := n)
      (fr0 := Ridder_entry); [|exact I|exact Hpull].
    intros lst fr0 x e fr' _ Hnext. destruct fr0 as [|x1 fx1 x2 fx2|];
      cbn [Ridder_next] in Hnext; [| |discriminate].
    - destruct (Ridder_f self (Ridder_x1 self)); cbn [bindS] in Hnext; [|discriminate].
      destruct (Ridder_f self (Ridder_x2 self)); cbn [bindS] in Hnext; [|discriminate].
      apply (Ridder_body_frame self _ _ _ _ _ _ _ Hnext).
    - apply (Ridder_body_frame self _ _ _ _ _ _ _ Hnext). }
  destruct fr as [|x1 fx1 x2 fx2|]; cbn [Ridder_next] in Hstop.
  - exfalso. destruct (Ridder_f self (Ridder_x1 self)); cbn [bindS] in Hstop;
      [|discriminate].
    destruct (Ridder_f self (Ridder_x2 self)); cbn [bindS] in Hstop; [|discriminate].
    exact (Ridder_body_not_Stop self _ _ _ _ Hstop).
  - exfalso. exact (Ridder_body_not_Stop self _ _ _ _ Hstop).
  - exact Hinv.
Qed.

Lemma Illinois_body_frame (self : Illinois) (a b fa fb x e : num) (fr : Illinois_frame) :
  Illinois_body A self a b fa fb = Yield x e fr -> Illinois_frame_ok A self (Some x) fr.
Proof.
  unfold Illinois_body.
  destruct (is_zero A (sub A b a)); [discriminate|].
  destruct (div A _ _) as [s|?]; cbn [bindS]; [|discriminate].
  destruct (div A _ _) as [q|?]; cbn [bindS]; [|discriminate].
  destruct (Illinois_f self _) as [fz|?] eqn:Hz; cbn [bindS]; [|discriminate].
  destruct (ltb A (absv A fz) (Illinois_tol self)) eqn:Hlt.
  - intros H. injection H as <- <- <-. eexists. eexists.
    split; [reflexivity|]. split; [exact Hz|exact Hlt].
  - destruct (ltb A (mul A fz fb) (lit A 0)).
    + destruct (div A _ _); cbn [bindS]; [|discriminate].
      intros H; injection H as <- <- <-; exact I.
    + destruct (Illinois_getm self fz fb); cbn [bindS]; [|discriminate].
      destruct (div A _ _); cbn [bindS]; [|discriminate].
      intros H; injection H as <- <- <-; exact I.
Qed.

Lemma Illinois_body_Stop (self : Illinois) (a b fa fb : num) :
  Illinois_body A self a b fa fb = Stop -> is_zero A (sub A b a) = true.
Proof.
  unfold Illinois_body. destruct (is_zero A (sub A b a)); [reflexivity|].
  step_cases; discriminate.
Qed.

(** X23. The sequence of the Illinois family ends in two ways only: on an
    interval of length zero, or through the early exit, after a pair at
    whose approximation [f] has a magnitude below the solver's [tol]. *)
Theorem Illinois_ends_below_tol_or_collapsed (self : Illinois) (n : nat)
    (ps : list (num * num)) (fr : Illinois_frame) :
  pull (Illinois_next A self) n Illinois_entry = Some (ps, fr) ->
  Illinois_next A self fr = Stop ->
  cancelled A (Illinois_f self) (Illinois_tol self) (last_x ps) \/
  Illinois_collapsed A self fr.
Proof.
  intros Hpull Hstop.
  assert (Hinv : Illinois_frame_ok A self (last_x ps) fr).
  { apply (pull_invariant (Illinois_next A self) (Illinois_frame_ok A self))
      with (n := n) (fr0 := Illinois_entry); [|exact I|exact Hpull].
    intros lst fr0 x e fr' _ Hnext. destruct fr0 as [|a b fa fb|];
      cbn [Illinois_next] in Hnext; [| |discriminate].
    - destruct (Illinois_f self (Illinois_a self)); cbn [bindS] in Hnext; [|discriminate].
      destruct (Illinois_f self (Illinois_b self)); cbn [bindS] in Hnext; [|discriminate].
      apply (Illinois_body_frame self _ _ _ _ _ _ _ Hnext).
    - apply (Illinois_body_frame self _ _ _ _ _ _ _ Hnext). }
  destruct fr as [|a b fa fb|]; cbn [Illinois_next] in Hstop.
  - right. destruct (Illinois_f self (Illinois_a self)); cbn [bindS] in Hstop;
      [|discriminate].
    destruct (Illinois_f self (Illinois_b self)); cbn [bindS] in Hstop; [|discriminate].
    exact (Illinois_body_Stop self _ _ _ _ Hstop).
  - right. exact (Illinois_body_Stop self _ _ _ _ Hstop).
  - left. exact Hinv.
Qed.

End Bracketing.

Lemma Ridder_ends_below_tol_witness :
  cancelled Exact.A Inputs.linear (Exact.Mpf (1 # 1000)) (Some (Exact.Mpf (1 # 2))).
Proof.
  apply (Ridder_ends_below_tol Exact.A Inputs.ridder_linear 1
           [(Exact.Mpf (1 # 2), Exact.Mpf 1)] Ridder_done).
  - vm_compute. reflexivity.
  - reflexivity.
Defined.

Lemma Illinois_ends_below_tol_or_collapsed_witness :
  cancelled Exact.A Inputs.linear (Exact.Mpf (1 # 1000)) (Some (Exact.Mpf (1 # 2))) \/
  Illinois_collapsed Exact.A Inputs.illinois_linear Illinois_done.
Proof.
  apply (Illinois_ends_below_tol_or_collapsed Exact.A Inputs.illinois_linear 1
           [(Exact.Mpf (1 # 2), Exact.Mpf 1)] Illinois_done).
  - vm_compute. reflexivity.
  - reflexivity.
Defined.
